(** * Latency analysis scripts: a shallow embedding of the statistical core

    The repository is a set of pandas scripts that load latency and block
    tables, join them, cut a covariate into quintiles and run
    Kruskal-Wallis, Dunn's post-hoc test and Cliff's delta.

    Numbers: the scripts compute on float64 columns.  The embedding uses
    exact rationals ([Q]) for every measured value: a float64 is a
    rational, and comparing, counting and ordering such values is exact in
    the scripts as it is here.  A missing cell (NaN or an absent value) is
    [None] in an [option].

    Rounding enters the scripts' results in one place that the embedding
    has to name: the six bin edges of [pd.qcut] are interpolated in
    float64, and an edge that is rounded onto a value of the column moves
    that value to the neighbouring bin.  [Binner.bin_edges] interpolates
    without rounding.  Every statement about the binner whose truth depends
    on where an edge falls is therefore made for the call on any six edges
    ([Binner.qcut_with]), under the conditions on the edges that it needs.

    pandas operations ([qcut], [merge], [concat], [dropna],
    [groupby(..).first()]) are written out as functions on lists of rows.
    The statistics that need the normal and chi-square distributions
    (scipy's [kruskal], the unadjusted p-values of scikit-posthocs'
    [posthoc_dunn]), the [cliffs_delta] package and Python's number
    formatting are external collaborators: they are Section variables of
    the parts that call them.

    Part I holds the definitions, module by module; Part II the proofs of
    the claims; Part III further properties of the code. *)

From Stdlib Require Import List Arith ZArith QArith Qminmax Lia Lqa Bool String.
From Stdlib Require Import Permutation Sorted SetoidList SetoidPermutation.
Import ListNotations.

Open Scope Q_scope.

(** ** Comparisons on values *)

(** Python's [x1 > x2] and [x1 < x2] on numbers. *)
Definition Qgtb (x y : Q) : bool := negb (Qle_bool x y).
Definition Qltb (x y : Q) : bool := negb (Qle_bool y x).

(** An integer count read as a number. *)
Definition Qnat (n : nat) : Q := inject_Z (Z.of_nat n).

(** [sum(1 for x in l if p x)] *)
Definition count_if {A : Type} (p : A -> bool) (l : list A) : nat :=
  length (filter p l).

(** ** Cliff's delta (Statistical_analysis_HighGasUsed.py, lines 11-19;
       Statistical_analysis_LowGasUsed.py, lines 13-21) *)
Module Cliffs.

(** [[(x1, x2) for x1 in lst1 for x2 in lst2]] *)
Definition all_pairs (lst1 lst2 : list Q) : list (Q * Q) :=
  flat_map (fun x1 => map (fun x2 => (x1, x2)) lst2) lst1.

Definition n_concordant (lst1 lst2 : list Q) : nat :=
  count_if (fun p => Qgtb (fst p) (snd p)) (all_pairs lst1 lst2).

Definition n_discordant (lst1 lst2 : list Q) : nat :=
  count_if (fun p => Qltb (fst p) (snd p)) (all_pairs lst1 lst2).

(** [cliffs_delta]: the division raises ZeroDivisionError when one of the
    groups is empty; that is the [None] result. *)
Definition cliffs_delta (lst1 lst2 : list Q) : option Q :=
  let n1 := length lst1 in
  let n2 := length lst2 in
  let nc := n_concordant lst1 lst2 in
  let nd := n_discordant lst1 lst2 in
  if (n1 * n2 =? 0)%nat then None
  else Some ((Qnat nc - Qnat nd) / Qnat (n1 * n2)).

(** The statistic as the specification words it: the number of pairs in
    which the value of the first group exceeds the value of the second,
    minus the number of pairs in which the value of the second exceeds the
    value of the first, over the product of the sizes.  Each count is taken
    from the side of the group that exceeds. *)
Definition exceed_count (A B : list Q) : nat :=
  list_sum (map (fun a => count_if (fun b => Qltb b a) B) A).

Definition delta_spec (A B : list Q) : Q :=
  (Qnat (exceed_count A B) - Qnat (exceed_count B A))
  / (Qnat (length A) * Qnat (length B)).

End Cliffs.

(** ** The Quintile Binner: [pd.qcut(column, 5, labels=['Q1',..,'Q5'])]

    Every script cuts a covariate with this one call
    (Statistical_analysis_HighGasUsed.py line 83,
    Latency_addition+selection_analysis_Phase1.py line 75,
    Latency_breach_penalty_analysis_Phase2.py line 132, ...).  pandas
      - takes the six quantiles of the column at 0, 1/5, .., 5/5 with linear
        interpolation between the two nearest order statistics (in float64;
        [bin_edges] is that interpolation without rounding),
      - raises ValueError ("Bin edges must be unique") when two of the six
        edges coincide ([duplicates='raise'] is the default),
      - and gives a value [v] the bin [i] with [bins[i-1] < v <= bins[i]]
        ([searchsorted(side='left')]), the lowest edge included in the
        first bin ([include_lowest=True]). *)
Module Binner.

Inductive quintile : Type := Q1 | Q2 | Q3 | Q4 | Q5.

Definition quintile_labels : list quintile := [Q1; Q2; Q3; Q4; Q5].

Definition quintile_eqb (a b : quintile) : bool :=
  match a, b with
  | Q1, Q1 | Q2, Q2 | Q3, Q3 | Q4, Q4 | Q5, Q5 => true
  | _, _ => false
  end.

(** Ascending order of the column's values. *)
Fixpoint insert (v : Q) (l : list Q) : list Q :=
  match l with
  | [] => [v]
  | w :: l' => if Qle_bool v w then v :: l else w :: insert v l'
  end.

Definition sort (l : list Q) : list Q := fold_right insert [] l.

(** Linear interpolation of the sorted values [s] at the virtual index
    [pos/5]: the integer part [lo] and the next index (clipped to the last
    one) are interpolated by the fractional part. *)
Definition interpolate (s : list Q) (pos : nat) : Q :=
  let lo := (pos / 5)%nat in
  let hi := Nat.min (lo + 1) (length s - 1) in
  let gamma := Qnat (pos mod 5) / 5 in
  let a := nth lo s 0 in
  let b := nth hi s 0 in
  a + (b - a) * gamma.

(** The quantile at [k/5] of the sorted values [s]: with [n] values the
    virtual index is [(n-1) * k / 5]. *)
Definition quantile (s : list Q) (k : nat) : Q :=
  interpolate s ((length s - 1) * k).

(** [np.linspace(0, 1, 6)], as numerators over 5. *)
Definition quantile_points : list nat := [0; 1; 2; 3; 4; 5]%nat.

Definition bin_edges (x : list Q) : list Q :=
  map (quantile (sort x)) quantile_points.

(** [len(unique(bins)) == len(bins)] *)
Fixpoint unique_edges (bins : list Q) : bool :=
  match bins with
  | [] => true
  | b :: bs => negb (existsb (Qeq_bool b) bs) && unique_edges bs
  end.

(** [bins.searchsorted(v, side='left')]: the leftmost insertion index. *)
Fixpoint searchsorted_left (bins : list Q) (v : Q) : nat :=
  match bins with
  | [] => 0
  | b :: bs => if Qltb b v then S (searchsorted_left bs v) else 0
  end.

(** The bin index of a value: [ids[x == bins[0]] = 1] after the search. *)
Definition bin_id (bins : list Q) (v : Q) : nat :=
  if Qeq_bool v (hd 0 bins) then 1%nat else searchsorted_left bins v.

(** Ids 0 and [len(bins)] are masked to the NaN category ([None]); ids
    1..5 take the labels in order. *)
Definition label_of_id (id : nat) : option quintile :=
  match id with
  | 1%nat => Some Q1
  | 2%nat => Some Q2
  | 3%nat => Some Q3
  | 4%nat => Some Q4
  | 5%nat => Some Q5
  | _ => None
  end.

(** [pd.qcut(x, 5, labels=[..])]: [None] is the raised ValueError.  An
    empty column has NaN quantiles, which are not unique either. *)
Definition qcut (x : list Q) : option (list (option quintile)) :=
  match x with
  | [] => None
  | _ =>
      let bins := bin_edges x in
      if unique_edges bins
      then Some (map (fun v => label_of_id (bin_id bins v)) x)
      else None
  end.

Definition label_is (q : quintile) (c : option quintile) : bool :=
  match c with
  | Some q' => quintile_eqb q q'
  | None => false
  end.

(** Number of records of a bin. *)
Definition bin_size (labels : list (option quintile)) (q : quintile) : nat :=
  count_if (label_is q) labels.

Definition bin_sizes (labels : list (option quintile)) : list nat :=
  map (bin_size labels) quintile_labels.

(** The specification's measure of a covariate: how many distinct values
    it has (values equal as numbers count once). *)
Fixpoint distinct_values (l : list Q) : list Q :=
  match l with
  | [] => []
  | v :: l' =>
      if existsb (Qeq_bool v) l' then distinct_values l'
      else v :: distinct_values l'
  end.

Definition n_distinct (l : list Q) : nat := length (distinct_values l).

(** The integer part of the virtual index of the [k]-th edge of a column
    of [n] values. *)
Definition cut_index (n k : nat) : nat := ((n - 1) * k / 5)%nat.

(** Strictly increasing, read by position. *)
Definition increasing (s : list Q) : Prop :=
  forall i j, (i < j < length s)%nat -> nth i s 0 < nth j s 0.

(** The position of a label in [labels=['Q1', .., 'Q5']], from 1: the bin
    id it stands for. *)
Definition quintile_rank (q : quintile) : nat :=
  match q with Q1 => 1 | Q2 => 2 | Q3 => 3 | Q4 => 4 | Q5 => 5 end%nat.

(** *** Columns with missing cells, and edges as the quantile step
        returned them

    [pd.qcut] is two steps: [bins = x.dropna().quantile(np.linspace(0, 1,
    6))], then [_bins_to_cuts(x, bins, labels, include_lowest=True)].  The
    first step runs in float64 (the points of [linspace] and the
    interpolation are rounded), so an edge can differ in its last bits from
    the exact interpolation of [bin_edges], up to falling on a neighbouring
    value of the column.  The second step only compares.  [qcut_with] is
    the call with the edges of the first step as an argument; [qcut_series]
    is the call with the edges interpolated without rounding. *)

(** [x.dropna()]: the values of the cells that are not missing. *)
Definition dropna (x : list (option Q)) : list Q :=
  flat_map (fun c => match c with Some v => [v] | None => [] end) x.

(** The label of one cell: [na_mask] covers the missing cells and the ids 0
    and [len(bins)]. *)
Definition cut_cell (bins : list Q) (c : option Q) : option quintile :=
  match c with
  | Some v => label_of_id (bin_id bins v)
  | None => None
  end.

(** [_bins_to_cuts]: ValueError when two edges coincide, one label per
    cell otherwise.  A column without any value has six NaN edges, which
    are not unique. *)
Definition qcut_with (bins : list Q) (x : list (option Q))
  : option (list (option quintile)) :=
  match dropna x with
  | [] => None
  | _ :: _ =>
      if unique_edges bins then Some (map (cut_cell bins) x) else None
  end.

Definition qcut_series (x : list (option Q))
  : option (list (option quintile)) :=
  qcut_with (bin_edges (dropna x)) x.

(** The rows of one bin, in row order, for any column [rows] of the table:
    [groupby(quintile_col)] leaves out the rows whose label is missing. *)
Definition rows_of_bin {A : Type} (labels : list (option quintile))
    (rows : list A) (q : quintile) : list A :=
  map snd (filter (fun c => label_is q (fst c)) (combine labels rows)).

(** The rows whose covariate is not missing. *)
Definition rows_with_value {A : Type} (x : list (option Q)) (rows : list A)
  : list A :=
  map snd (filter (fun c => match fst c with Some _ => true | None => false end)
                  (combine x rows)).

(** What the quantile step returns on a column that has values, rounded or
    not: six edges in non-decreasing order, the first the smallest value
    and the last the largest (at the low end the interpolation weight is 0,
    at the high end both neighbours are the largest value). *)
Fixpoint nondecreasing (l : list Q) : bool :=
  match l with
  | a :: (b :: _) as l' => Qle_bool a b && nondecreasing l'
  | _ => true
  end.

Definition quantile_edges (vals bins : list Q) : bool :=
  match sort vals with
  | [] => true
  | lowest :: _ =>
      (length bins =? 6)%nat && nondecreasing bins
      && Qeq_bool (hd 0 bins) lowest
      && Qeq_bool (last bins 0) (last (sort vals) 0)
  end.

(** The [k]-th edge lies where the exact interpolation puts it: at or
    above the order statistic of its cut index and strictly below the next
    one.  Rounding keeps an interior edge in place unless it carries the
    edge onto that next value. *)
Definition edge_in_place (s bins : list Q) (k : nat) : bool :=
  Qle_bool (nth (cut_index (length s) k) s 0) (nth k bins 0)
  && Qltb (nth k bins 0) (nth (cut_index (length s) k + 1) s 0).

Definition edges_in_place (vals bins : list Q) : bool :=
  forallb (edge_in_place (sort vals) bins) [1; 2; 3; 4]%nat.

End Binner.

(** ** The analysis scripts: omnibus test, post-hoc table, effect size *)
Module Analysis.
Import Binner.

(** The literal [0.05] of every script, and the test [p < 0.05]. *)
Definition significance_level : Q := 5 # 100.
Definition significant (p : Q) : bool := Qltb p significance_level.

(** [for i in range(n): for j in range(i + 1, n)] *)
Definition index_pairs (n : nat) : list (nat * nat) :=
  flat_map (fun i => map (fun j => (i, j)) (seq (S i) (n - S i))) (seq 0 n).

(** The latency values of the records of one bin, in row order, and the
    five groups of [df.groupby(quintile_col, observed=False)]. *)
Definition group_of (labels : list (option quintile)) (latency : list Q)
    (q : quintile) : list Q :=
  map snd (filter (fun c => label_is q (fst c)) (combine labels latency)).

Definition groups_by_quintile (labels : list (option quintile))
    (latency : list Q) : list (list Q) :=
  map (group_of labels latency) quintile_labels.

(** The groups that have rows: the post-hoc matrix of scikit-posthocs has
    one line per value that occurs in the group column. *)
Definition observed_groups (groups : list (list Q)) : list (list Q) :=
  filter (fun g => match g with [] => false | _ :: _ => true end) groups.

(** The [p_adjust] argument of [sp.posthoc_dunn]; the scripts pass
    ['bonferroni'] or leave the default [None]. *)
Inductive p_adjust_method : Type := bonferroni.

(** The effect-size cell of a pair row: a printed number or the text
    "Not significant". *)
Inductive effect_cell : Type :=
  | EffectText (text : string)
  | NotSignificantText.

(** *** Recording which pairs Cliff's delta was evaluated for

    A computation returns a value or raises ([None]) and leaves the list of
    the pairs for which the effect-size function was called. *)
Definition Traced (A : Type) : Type := (option A * list (nat * nat))%type.

Definition ret {A : Type} (a : A) : Traced A := (Some a, []).

Definition bind {A B : Type} (m : Traced A) (f : A -> Traced B) : Traced B :=
  match m with
  | (None, t) => (None, t)
  | (Some a, t) => let (b, t') := f a in (b, (t ++ t')%list)
  end.

(** Calling the effect-size function for the pair [(i, j)]. *)
Definition effect_call {A : Type} (ij : nat * nat) (result : option A)
  : Traced A := (result, [ij]).

(** A step that may raise and calls no effect-size function. *)
Definition raise_or {A : Type} (o : option A) : Traced A := (o, []).

(** [group_data.get_group(label)]: KeyError for a group without rows. *)
Definition get_group (groups : list (list Q)) (i : nat) : option (list Q) :=
  match nth i groups [] with
  | [] => None
  | g => Some g
  end.

Notation "x <- m ;; k" := (bind m (fun x => k))
  (at level 61, m at next level, right associativity).

(** A list comprehension or loop that appends one row per element. *)
Fixpoint for_each {A B : Type} (f : A -> Traced B) (l : list A)
  : Traced (list B) :=
  match l with
  | [] => ret []
  | a :: l' => b <- f a ;; bs <- for_each f l' ;; ret (b :: bs)
  end.

(** The three covariates and the in-memory table of merged records; the
    scripts write each quintile column into the table they were given. *)
Inductive factor : Type := GasPrice | BlockSize | TransactionCount.

Definition factor_eqb (a b : factor) : bool :=
  match a, b with
  | GasPrice, GasPrice | BlockSize, BlockSize
  | TransactionCount, TransactionCount => true
  | _, _ => false
  end.

Record Observation : Type := {
  gas_price : Q;
  block_size : Q;
  transaction_count : Q;
  latency : Q
}.

Record DataFrame : Type := {
  records : list Observation;
  gas_price_Q : option (list (option quintile));
  block_size_Q : option (list (option quintile));
  transaction_count_Q : option (list (option quintile))
}.

Definition factor_column (f : factor) (df : DataFrame) : list Q :=
  map (match f with
       | GasPrice => gas_price
       | BlockSize => block_size
       | TransactionCount => transaction_count
       end) (records df).

Definition latency_column (df : DataFrame) : list Q :=
  map latency (records df).

(** [quintile_col in df.columns] and [df[quintile_col]] *)
Definition quintile_column (f : factor) (df : DataFrame)
  : option (list (option quintile)) :=
  match f with
  | GasPrice => gas_price_Q df
  | BlockSize => block_size_Q df
  | TransactionCount => transaction_count_Q df
  end.

(** [df[quintile_col] = labels] *)
Definition set_quintile_column (f : factor)
    (labels : list (option quintile)) (df : DataFrame) : DataFrame :=
  match f with
  | GasPrice =>
      {| records := records df; gas_price_Q := Some labels;
         block_size_Q := block_size_Q df;
         transaction_count_Q := transaction_count_Q df |}
  | BlockSize =>
      {| records := records df; gas_price_Q := gas_price_Q df;
         block_size_Q := Some labels;
         transaction_count_Q := transaction_count_Q df |}
  | TransactionCount =>
      {| records := records df; gas_price_Q := gas_price_Q df;
         block_size_Q := block_size_Q df;
         transaction_count_Q := Some labels |}
  end.

(** [df[quintile_col] = pd.qcut(df[factor_col], 5, labels=[..])] *)
Definition assign_quintiles (f : factor) (df : DataFrame) : option DataFrame :=
  match qcut (factor_column f df) with
  | Some labels => Some (set_quintile_column f labels df)
  | None => None
  end.

Definition all_factors : list factor := [GasPrice; BlockSize; TransactionCount].

(** Rows of the reports. *)

(** Statistical_analysis_*: [[comp, f"{p_val:.4f}", delta or text]] *)
Record StatRow : Type := {
  stat_comparison : nat * nat;
  stat_p_value : string;
  stat_effect : effect_cell
}.

(** Phase1: Comparison, "Yes"/"No", rounded p-value, delta or text *)
Record Phase1Row : Type := {
  p1_comparison : nat * nat;
  p1_is_diff : bool;
  p1_p_value : Q;
  p1_delta : effect_cell
}.

(** Phase2: Comparison, p-value, Cliff's Delta, Significant? *)
Record Phase2Row : Type := {
  p2_comparison : nat * nat;
  p2_p_value : Q;
  p2_cliffs_delta : Q;
  p2_significant : bool
}.

(** Phase1's Kruskal-Wallis summary row; [kw_interpretation] is [true]
    for "Significant differences". *)
Record KWRow : Type := {
  kw_factor : factor;
  kw_H_statistic : Q;
  kw_p_value : Q;
  kw_interpretation : bool
}.

(** What the console of Latency_analysis_each_function.py shows. *)
Inductive console_line : Type :=
  | KruskalLine (group_column : factor) (H p : string)
  | PosthocRecommended (group_column : factor)
  | NoDifferences (group_column : factor)
  | PosthocHeader (group_column : factor)
  | PosthocMatrix (cells : list (nat * nat * Q)).

(** The per-feature part of the Statistical_analysis_* report. *)
Inductive report_item : Type :=
  | KruskalResult (H p : string)
  | RejectNull
  | PosthocTable (rows : list StatRow)
  | FailToReject.

Section Externals.

(** scipy's [kruskal], called on the groups: statistic and p-value, or an
    exception. *)
Variable kruskal : list (list Q) -> option (Q * Q).

(** The unadjusted two-sided p-value of Dunn's test between groups [i]
    and [j]: what [sp.posthoc_dunn] computes before any adjustment. *)
Variable dunn_raw : list (list Q) -> nat -> nat -> Q.

(** [cliffs_delta] of the cliffs_delta package (Phase1 and Phase2 import
    it): the statistic and a magnitude word, or an exception. *)
Variable cliffs_delta_pkg : list Q -> list Q -> option (Q * string).

(** Python's [round(v, ndigits)], [f"{v:.nf}"] and [str(v)]. *)
Variable round_to : Q -> nat -> Q.
Variable format_fixed : nat -> Q -> string.
Variable str_float : Q -> string.

(** The number of entries above the diagonal for [k] groups: the number
    of tests that [multipletests] corrects together. *)
Definition n_comparisons (k : nat) : nat := (k * (k - 1) / 2)%nat.

(** [sp.posthoc_dunn(.., p_adjust=..)], read above the diagonal.  With
    ['bonferroni'] statsmodels multiplies each p-value by the number of
    tests and clips at 1. *)
Definition posthoc_dunn (groups : list (list Q))
    (p_adjust : option p_adjust_method) (i j : nat) : Q :=
  let p := dunn_raw groups i j in
  match p_adjust with
  | None => p
  | Some bonferroni =>
      Qmin 1 (p * Qnat (n_comparisons (List.length (observed_groups groups))))
  end.

(** **** Statistical_analysis_HighGasUsed.py / _LowGasUsed.py,
         [perform_statistical_analysis], per feature *)

(** Line 143 (High) and 193 (Low): no [p_adjust] argument. *)
Definition statistical_posthoc (groups : list (list Q)) : nat -> nat -> Q :=
  posthoc_dunn groups None.

(** Lines 148-157: the body of the loop, for one pair. *)
Definition statistical_row (groups : list (list Q)) (ij : nat * nat)
  : Traced StatRow :=
  let p_val := statistical_posthoc groups (fst ij) (snd ij) in
  if significant p_val then
    delta <- effect_call ij
               (Cliffs.cliffs_delta (nth (fst ij) (observed_groups groups) [])
                                    (nth (snd ij) (observed_groups groups) [])) ;;
    ret {| stat_comparison := ij;
           stat_p_value := format_fixed 4 p_val;
           stat_effect := EffectText (format_fixed 2 delta) |}
  else
    ret {| stat_comparison := ij;
           stat_p_value := format_fixed 4 p_val;
           stat_effect := NotSignificantText |}.

(** Lines 145-157: the loop over the pairs,
    [range(len(posthoc.columns))]. *)
Definition statistical_comparisons (groups : list (list Q))
  : Traced (list StatRow) :=
  for_each (statistical_row groups)
           (index_pairs (List.length (observed_groups groups))).

(** Lines 123-202: test, then the post-hoc table under [if result.pvalue <
    0.05]. *)
Definition statistical_feature_section (groups : list (list Q))
  : Traced (list report_item) :=
  match kruskal groups with
  | None => (None, [])
  | Some (statistic, pvalue) =>
      let head := KruskalResult (format_fixed 2 statistic)
                                (format_fixed 4 pvalue) in
      if significant pvalue then
        rows <- statistical_comparisons groups ;;
        ret [head; RejectNull; PosthocTable rows]
      else ret [head; FailToReject]
  end.

(** **** Latency_analysis_each_function.py *)

(** [perform_kruskal_and_summary], lines 131-142: prints and returns the
    test result.  The function collects the latency group of each label
    that occurs in the column ([unique()]); [groups] stands for that list
    and for the groups that [perform_dunn_posthoc] sees, which are the same
    groups up to their order and to groups without rows. *)
Definition perform_kruskal_and_summary (groups : list (list Q))
    (group_column : factor) : option (list console_line * (Q * Q)) :=
  match kruskal groups with
  | None => None
  | Some (statistic, pvalue) =>
      Some (KruskalLine group_column (format_fixed 2 statistic)
                        (format_fixed 4 pvalue)
            :: (if significant pvalue
                then [PosthocRecommended group_column]
                else [NoDifferences group_column]),
            (statistic, pvalue))
  end.

(** [perform_dunn_posthoc], lines 145-148. *)
Definition perform_dunn_posthoc (groups : list (list Q))
    (group_column : factor) : list console_line :=
  let posthoc_results := posthoc_dunn groups (Some bonferroni) in
  [PosthocHeader group_column;
   PosthocMatrix (map (fun ij => (ij, posthoc_results (fst ij) (snd ij)))
                      (index_pairs (List.length (observed_groups groups))))].

(** Lines 165-166 (and 167-170, 180-185): the two calls in sequence; the
    value returned by the first is dropped. *)
Definition each_function_factor (groups : list (list Q))
    (group_column : factor) : option (list console_line) :=
  match perform_kruskal_and_summary groups group_column with
  | None => None
  | Some (printed, _) =>
      Some (printed ++ perform_dunn_posthoc groups group_column)%list
  end.

(** **** Latency_addition+selection_analysis_Phase1.py *)

(** Lines 157-159 and 169-188 of [produce_posthoc_cliffs_table]: the
    delta is computed for every pair before the test on the p-value. *)
Definition phase1_posthoc (groups : list (list Q)) : nat -> nat -> Q :=
  posthoc_dunn groups (Some bonferroni).

Definition phase1_row (groups : list (list Q)) (ij : nat * nat)
  : Traced Phase1Row :=
  let p_value := phase1_posthoc groups (fst ij) (snd ij) in
  g1 <- raise_or (get_group groups (fst ij)) ;;
  g2 <- raise_or (get_group groups (snd ij)) ;;
  d <- effect_call ij (cliffs_delta_pkg g1 g2) ;;
  ret {| p1_comparison := ij;
         p1_is_diff := significant p_value;
         p1_p_value := round_to p_value 4;
         p1_delta := if significant p_value
                     then EffectText (str_float (round_to (fst d) 2))
                     else NotSignificantText |}.

Definition phase1_pair_rows (groups : list (list Q))
  : Traced (list Phase1Row) :=
  for_each (phase1_row groups) (index_pairs (List.length quintile_labels)).

(** **** Latency_breach_penalty_analysis_Phase2.py *)

(** Lines 178-207 of [analyze_factor]: every row carries the delta. *)
Definition phase2_posthoc (groups : list (list Q)) : nat -> nat -> Q :=
  posthoc_dunn groups (Some bonferroni).

Definition phase2_row (groups : list (list Q)) (ij : nat * nat)
  : Traced Phase2Row :=
  let pval_ij := phase2_posthoc groups (fst ij) (snd ij) in
  (* [posthoc_mat.loc[q_i, q_j]]: KeyError for a label without rows *)
  g_i <- raise_or (get_group groups (fst ij)) ;;
  g_j <- raise_or (get_group groups (snd ij)) ;;
  d_val <- effect_call ij (cliffs_delta_pkg g_i g_j) ;;
  ret {| p2_comparison := ij;
         p2_p_value := round_to pval_ij 5;
         p2_cliffs_delta := round_to (fst d_val) 3;
         p2_significant := significant pval_ij |}.

Definition phase2_pair_rows (groups : list (list Q))
  : Traced (list Phase2Row) :=
  for_each (phase2_row groups) (index_pairs (List.length quintile_labels)).

(** Lines 155-211 of [analyze_factor], after the quintile column is set:
    the test result and the pair table, [None] for [posthoc_df = None]. *)
Definition phase2_analyze (groups : list (list Q))
  : Traced (Q * Q * option (list Phase2Row)) :=
  match kruskal groups with
  | None => (None, [])
  | Some (kw_stat, kw_p) =>
      if significant kw_p then
        rows <- phase2_pair_rows groups ;;
        ret (kw_stat, kw_p, Some rows)
      else ret (kw_stat, kw_p, None)
  end.

(** **** Phase1, [kruskal_test_for_factors] (lines 63-95),
         [produce_posthoc_cliffs_table] (lines 153-159) and [build_report]
         (lines 317, 341-363), on the table they mutate *)

(** The groups of [df.groupby(quintile_col, observed=False)]; the column
    must be there. *)
Definition factor_groups (f : factor) (df : DataFrame)
  : option (list (list Q)) :=
  match quintile_column f df with
  | Some labels => Some (groups_by_quintile labels (latency_column df))
  | None => None
  end.

Fixpoint kruskal_test_for_factors (df : DataFrame) (factors : list factor)
  : option (DataFrame * list KWRow) :=
  match factors with
  | [] => Some (df, [])
  | factor_col :: rest =>
      match assign_quintiles factor_col df with
      | None => None
      | Some df1 =>
          match factor_groups factor_col df1 with
          | None => None
          | Some groups =>
              match kruskal groups with
              | None => None
              | Some (h_stat, p_value) =>
                  match kruskal_test_for_factors df1 rest with
                  | None => None
                  | Some (df2, results) =>
                      Some (df2,
                            {| kw_factor := factor_col;
                               kw_H_statistic := round_to h_stat 4;
                               kw_p_value := round_to p_value 6;
                               kw_interpretation := significant p_value |}
                            :: results)
                  end
              end
          end
      end
  end.

(** The quintile column is computed only when the table does not have it
    yet. *)
Definition produce_posthoc_cliffs_table (df : DataFrame) (factor_col : factor)
  : Traced (DataFrame * list Phase1Row) :=
  df1 <- raise_or (match quintile_column factor_col df with
                   | Some _ => Some df
                   | None => assign_quintiles factor_col df
                   end) ;;
  groups <- raise_or (factor_groups factor_col df1) ;;
  rows <- phase1_pair_rows groups ;;
  ret (df1, rows).

(** The loop of [build_report] over the factors: the post-hoc page is
    produced under [if pval < 0.05], [pval] being the rounded p-value of the
    summary row.  (The summary-statistics page of lines 347-354 only reads
    the table and belongs to the renderer.) *)
Fixpoint posthoc_pages (kw_df : list KWRow) (df : DataFrame)
    (factors : list factor)
  : Traced (DataFrame * list (factor * list Phase1Row)) :=
  match factors with
  | [] => ret (df, [])
  | factor_col :: rest =>
      row <- raise_or (find (fun r => factor_eqb (kw_factor r) factor_col)
                            kw_df) ;;
      if significant (kw_p_value row) then
        page <- produce_posthoc_cliffs_table df factor_col ;;
        pages <- posthoc_pages kw_df (fst page) rest ;;
        ret (fst pages, (factor_col, snd page) :: snd pages)
      else posthoc_pages kw_df df rest
  end.

Definition build_report (df : DataFrame)
  : Traced (DataFrame * (list KWRow * list (factor * list Phase1Row))) :=
  kw <- raise_or (kruskal_test_for_factors df all_factors) ;;
  pages <- posthoc_pages (snd kw) (fst kw) all_factors ;;
  ret (fst pages, (snd kw, snd pages)).

End Externals.

End Analysis.

(** ** The Loader: [process_service_data] *)
Module Loader.

(** A row of a block file, and the block columns kept for the merge. *)
Record BlockRow : Type := {
  b_gas_price : option Q;
  b_block_size_bytes : option Q;
  b_transaction_count : option Q;
  b_transaction_hash : option string
}.

Record GasRow : Type := {
  g_gas_price : option Q;
  g_block_size : option Q;
  g_transaction_count : option Q;
  g_transaction_hash : option string
}.

(** [data['Block Size (KB)'] = data['Block Size (bytes)'] / 1024] *)
Definition with_block_size_KB (r : BlockRow) : GasRow :=
  {| g_gas_price := b_gas_price r;
     g_block_size := option_map (fun b => b / 1024) (b_block_size_bytes r);
     g_transaction_count := b_transaction_count r;
     g_transaction_hash := b_transaction_hash r |}.

(** Statistical_analysis_HighGasUsed.py keeps the size in bytes. *)
Definition with_block_size_bytes (r : BlockRow) : GasRow :=
  {| g_gas_price := b_gas_price r;
     g_block_size := b_block_size_bytes r;
     g_transaction_count := b_transaction_count r;
     g_transaction_hash := b_transaction_hash r |}.

Definition is_some {A : Type} (o : option A) : bool :=
  match o with Some _ => true | None => false end.

Definition gas_complete (g : GasRow) : bool :=
  is_some (g_gas_price g) && is_some (g_block_size g)
  && is_some (g_transaction_count g) && is_some (g_transaction_hash g).

(** The block files that exist, concatenated.  The tables are given as
    read: [None] is a path without a file, which every loader passes over;
    [Some rows] is a file that [pd.read_csv] reads with the four columns
    asked for.  A file whose read raises is outside these tables; the
    loaders differ on it, see [path_content] below. *)
Definition all_gas_data (convert : BlockRow -> GasRow)
    (block_files : list (option (list BlockRow))) : list GasRow :=
  flat_map (fun f => match f with
                     | Some rows => map convert rows
                     | None => []
                     end) block_files.

(** *** Hash-based mode *)

Record HashLatencyRow : Type := {
  hl_latency : option Q;
  hl_transaction_hash : option string
}.

Record HashLatencyFile : Type := {
  hf_has_latency_column : bool;
  hf_rows : list HashLatencyRow
}.

Record HashMerged : Type := {
  hm_gas : GasRow;
  hm_latency : option Q
}.

(** Key equality of [pd.merge]: two missing keys match each other. *)
Definition hash_eqb (a b : option string) : bool :=
  match a, b with
  | Some x, Some y => String.eqb x y
  | None, None => true
  | _, _ => false
  end.

(** [pd.merge(left, right, on='Transaction Hash', how='inner')]: every
    pair of rows with equal keys, in the order of the left rows. *)
Definition merge_inner (left : list GasRow) (right : list HashLatencyRow)
  : list HashMerged :=
  flat_map
    (fun g =>
       map (fun l => {| hm_gas := g; hm_latency := hl_latency l |})
           (filter (fun l => hash_eqb (g_transaction_hash g)
                                      (hl_transaction_hash l)) right))
    left.

(** [.dropna()] on the merged table. *)
Definition hash_merged_complete (m : HashMerged) : bool :=
  gas_complete (hm_gas m) && is_some (hm_latency m).

Definition dropna_merged (rows : list HashMerged) : list HashMerged :=
  filter hash_merged_complete rows.

(** [df.dropna(subset=['Transaction Hash'])] *)
Definition dropna_hash (rows : list HashLatencyRow) : list HashLatencyRow :=
  filter (fun l => is_some (hl_transaction_hash l)) rows.

Module HighGasUsed.

(** Statistical_analysis_HighGasUsed.py, lines 21-46, on tables as read
    (see [all_gas_data]).  A file without the latency column makes the
    selection of line 32 raise (no handler): [None]. *)
Fixpoint latency_data_list (data_files : list (option HashLatencyFile))
    (use_transaction_hash : bool) : option (list (list HashLatencyRow)) :=
  match data_files with
  | [] => Some []
  | None :: rest => latency_data_list rest use_transaction_hash
  | Some f :: rest =>
      let df := if use_transaction_hash then dropna_hash (hf_rows f)
                else hf_rows f in
      if hf_has_latency_column f then
        match latency_data_list rest use_transaction_hash with
        | Some frames => Some (df :: frames)
        | None => None
        end
      else None
  end.

Definition process_service_data (data_files : list (option HashLatencyFile))
    (block_files : list (option (list BlockRow)))
    (use_transaction_hash : bool) : option (list HashMerged) :=
  match latency_data_list data_files use_transaction_hash with
  | None => None
  | Some frames =>
      let all_latency_data := concat frames in
      let all_block_data := all_gas_data with_block_size_bytes block_files in
      match all_latency_data, all_block_data with
      | _ :: _, _ :: _ => Some (merge_inner all_block_data all_latency_data)
      | _, _ => Some []
      end
  end.

End HighGasUsed.

Module Phase1.

(** Latency_addition+selection_analysis_Phase1.py, lines 16-57, called
    with [use_transaction_hash=True], on tables as read (every file that
    exists is readable and a latency file has the [Transaction Hash]
    column): a file without the latency column is passed over.  The
    function with the exceptions of the reads is [Phase1Files] below. *)
Definition latency_data_list (data_files : list (option HashLatencyFile))
  : list (list HashLatencyRow) :=
  flat_map (fun f => match f with
                     | Some f' => if hf_has_latency_column f'
                                  then [hf_rows f'] else []
                     | None => []
                     end) data_files.

Definition process_service_data (data_files : list (option HashLatencyFile))
    (block_files : list (option (list BlockRow))) : list HashMerged :=
  let all_latency_data := concat (latency_data_list data_files) in
  let all_gas_data := all_gas_data with_block_size_KB block_files in
  match all_latency_data, all_gas_data with
  | _ :: _, _ :: _ => dropna_merged (merge_inner all_gas_data all_latency_data)
  | _, _ => []
  end.

End Phase1.

(** *** Index-based mode *)

Record LatencyRow : Type := {
  Iteration : option Z;
  UserIndex : option Z;
  Latency : option Q
}.

(** A latency file as read: which of the columns it has, and its rows (a
    column that the file does not have is [None] in every row). *)
Record LatencyFile : Type := {
  has_Iteration : bool;
  has_UserIndex : bool;
  has_latency_column : bool;
  rows : list LatencyRow
}.

(** Ascending order of a column, by insertion. *)
Fixpoint insert_by {A : Type} (leb : A -> A -> bool) (a : A) (l : list A)
  : list A :=
  match l with
  | [] => [a]
  | b :: l' => if leb a b then a :: l else b :: insert_by leb a l'
  end.

Definition sort_by {A : Type} (leb : A -> A -> bool) (l : list A) : list A :=
  fold_right (insert_by leb) [] l.

(** The group key: [Iteration] with [UserIndex], or [Iteration] alone.  A
    row with a missing key cell belongs to no group ([dropna=True]). *)
Definition key : Type := (Z * option Z)%type.

Definition group_key (by_user : bool) (r : LatencyRow) : option key :=
  match Iteration r with
  | None => None
  | Some it =>
      if by_user then
        match UserIndex r with
        | None => None
        | Some u => Some (it, Some u)
        end
      else Some (it, None)
  end.

Definition user_eqb (a b : option Z) : bool :=
  match a, b with
  | Some x, Some y => (x =? y)%Z
  | None, None => true
  | _, _ => false
  end.

Definition user_leb (a b : option Z) : bool :=
  match a, b with
  | Some x, Some y => (x <=? y)%Z
  | None, _ => true
  | Some _, None => false
  end.

Definition key_eqb (a b : key) : bool :=
  (fst a =? fst b)%Z && user_eqb (snd a) (snd b).

(** Lexicographic order of the keys ([sort=True]). *)
Definition key_leb (a b : key) : bool :=
  (fst a <? fst b)%Z || ((fst a =? fst b)%Z && user_leb (snd a) (snd b)).

Definition has_key (by_user : bool) (k : key) (r : LatencyRow) : bool :=
  match group_key by_user r with
  | Some k' => key_eqb k k'
  | None => false
  end.

Fixpoint dedup (l : list key) : list key :=
  match l with
  | [] => []
  | k :: l' => if existsb (key_eqb k) l' then dedup l' else k :: dedup l'
  end.

(** The keys of the groups, each once, ascending. *)
Definition group_keys (by_user : bool) (rs : list LatencyRow) : list key :=
  sort_by key_leb
    (dedup (flat_map (fun r => match group_key by_user r with
                               | Some k => [k]
                               | None => []
                               end) rs)).

(** [GroupBy.first()] takes, column by column, the first entry of the
    group that is not missing. *)
Fixpoint first_non_null {A : Type} (cells : list (option A)) : option A :=
  match cells with
  | [] => None
  | Some v :: _ => Some v
  | None :: rest => first_non_null rest
  end.

(** [df.groupby(keys).first().reset_index()] *)
Definition groupby_first (by_user : bool) (rs : list LatencyRow)
  : list LatencyRow :=
  map (fun k =>
         {| Iteration := Some (fst k);
            UserIndex := snd k;
            Latency := first_non_null
                         (map Latency (filter (has_key by_user k) rs)) |})
      (group_keys by_user rs).

(** The concatenated latency table: its rows, and whether it has the
    [UserIndex] column. *)
Record LatencyTable : Type := {
  lt_has_UserIndex : bool;
  lt_rows : list LatencyRow
}.

Definition latency_complete (has_user : bool) (r : LatencyRow) : bool :=
  is_some (Latency r) && is_some (Iteration r)
  && (negb has_user || is_some (UserIndex r)).

Record IndexMerged : Type := {
  im_gas : GasRow;
  im_latency : LatencyRow
}.

(** [pd.concat([left, right], axis=1)] on two tables indexed 0, 1, ..:
    rows are aligned by position and the shorter side is filled with
    missing cells. *)
Fixpoint concat_axis1 {A B : Type} (left : list A) (right : list B)
  : list (option A * option B) :=
  match left, right with
  | [], _ => map (fun b => (None, Some b)) right
  | _ :: _, [] => map (fun a => (Some a, None)) left
  | a :: left', b :: right' => (Some a, Some b) :: concat_axis1 left' right'
  end.

(** [.dropna()] on the side-by-side table. *)
Definition dropna_axis1 (has_user : bool)
    (cells : list (option GasRow * option LatencyRow)) : list IndexMerged :=
  flat_map
    (fun c =>
       match c with
       | (Some g, Some l) =>
           if gas_complete g && latency_complete has_user l
           then [{| im_gas := g; im_latency := l |}] else []
       | _ => []
       end) cells.

(** What the function prints. *)
Inductive message : Type :=
  | FileNotFound
  | LatencyColumnNotFound
  | ErrorReading
  | ErrorReadingGasData
  | NoDataAvailable.

Module EachFunction.

(** Latency_analysis_each_function.py, lines 74-128, called with
    [index_based=True] (the same lines are in
    Latency_breach+penalty_analysis_LowGasUsed_final.py, 7-74). *)

(** Lines 79-100 for one latency file: the frame appended to
    [latency_data_list], if any, and the messages. *)
Definition latency_frame (file : option LatencyFile)
  : option (bool * list LatencyRow) * list message :=
  match file with
  | None => (None, [FileNotFound])
  | Some f =>
      let df :=
        if has_UserIndex f && has_Iteration f
        then groupby_first true (rows f)
        else if has_Iteration f then groupby_first false (rows f)
             else rows f in
      if has_latency_column f then
        (* the selection of line 92 raises KeyError without [Iteration];
           the handler of line 97 prints *)
        if has_Iteration f then (Some (has_UserIndex f, df), [])
        else (None, [ErrorReading])
      else (None, [LatencyColumnNotFound])
  end.

Definition latency_frames (data_files : list (option LatencyFile))
  : list (bool * list LatencyRow) :=
  flat_map (fun file => match fst (latency_frame file) with
                        | Some fr => [fr]
                        | None => []
                        end) data_files.

Definition all_latency_data (data_files : list (option LatencyFile))
  : LatencyTable :=
  let frames := latency_frames data_files in
  {| lt_has_UserIndex := existsb fst frames;
     lt_rows := flat_map snd frames |}.

Definition loading_messages (data_files : list (option LatencyFile))
    (block_files : list (option (list BlockRow))) : list message :=
  (flat_map (fun file => snd (latency_frame file)) data_files
   ++ flat_map (fun f => match f with
                         | Some _ => []
                         | None => [FileNotFound]
                         end) block_files)%list.

(** Lines 118-128: the merge. *)
Definition merge_index_based (all_gas_data : list GasRow)
    (all_latency_data : LatencyTable) : list IndexMerged * list message :=
  match lt_rows all_latency_data, all_gas_data with
  | _ :: _, _ :: _ =>
      (dropna_axis1 (lt_has_UserIndex all_latency_data)
         (concat_axis1 all_gas_data (lt_rows all_latency_data)), [])
  | _, _ => ([], [NoDataAvailable])
  end.

Definition process_service_data (data_files : list (option LatencyFile))
    (block_files : list (option (list BlockRow)))
  : list IndexMerged * list message :=
  let merged := merge_index_based (all_gas_data with_block_size_KB block_files)
                                  (all_latency_data data_files) in
  (fst merged, (loading_messages data_files block_files ++ snd merged)%list).

End EachFunction.

(** *** Files whose read raises

    What a loader finds at a path: no file, a file whose read raises (it
    is not a CSV or, for a block file, it lacks a column of [usecols]), or
    a table.  Latency_analysis_each_function.py wraps the work on a file in
    [try: .. except Exception], prints and goes on;
    Latency_addition+selection_analysis_Phase1.py has no handler, so the
    exception leaves [process_service_data]. *)
Inductive path_content (A : Type) : Type :=
  | NoFile
  | ReadRaises
  | Csv (table : A).

Arguments NoFile {A}.
Arguments ReadRaises {A}.
Arguments Csv {A} table.

(** A latency table read in hash-based mode, and whether the file has the
    [Transaction Hash] column (without it every hash of [hc_table] is
    missing). *)
Record HashLatencyCsv : Type := {
  hc_has_hash_column : bool;
  hc_table : HashLatencyFile
}.

Module Phase1Files.

(** Latency_addition+selection_analysis_Phase1.py, lines 16-57, called
    with [use_transaction_hash=True]; [None]: an exception leaves the
    function. *)

(** Lines 21-35.  The selection of line 30 raises KeyError when the file
    has the latency column and no [Transaction Hash] column. *)
Fixpoint latency_data_list (data_files : list (path_content HashLatencyCsv))
  : option (list (list HashLatencyRow)) :=
  match data_files with
  | [] => Some []
  | NoFile :: rest => latency_data_list rest
  | ReadRaises :: _ => None
  | Csv f :: rest =>
      if hf_has_latency_column (hc_table f) then
        if hc_has_hash_column f then
          match latency_data_list rest with
          | Some frames => Some (hf_rows (hc_table f) :: frames)
          | None => None
          end
        else None
      else latency_data_list rest
  end.

(** Lines 39-48. *)
Fixpoint gas_data_list (block_files : list (path_content (list BlockRow)))
  : option (list (list GasRow)) :=
  match block_files with
  | [] => Some []
  | NoFile :: rest => gas_data_list rest
  | ReadRaises :: _ => None
  | Csv rows :: rest =>
      match gas_data_list rest with
      | Some frames => Some (map with_block_size_KB rows :: frames)
      | None => None
      end
  end.

Definition process_service_data
    (data_files : list (path_content HashLatencyCsv))
    (block_files : list (path_content (list BlockRow)))
  : option (list HashMerged) :=
  match latency_data_list data_files with
  | None => None
  | Some frames =>
      match gas_data_list block_files with
      | None => None
      | Some gas_frames =>
          let all_latency_data := concat frames in
          let all_gas_data := concat gas_frames in
          match all_latency_data, all_gas_data with
          | _ :: _, _ :: _ =>
              Some (dropna_merged (merge_inner all_gas_data all_latency_data))
          | _, _ => Some []
          end
      end
  end.

(** The tables as read, when every read returns. *)
Definition tables_read {A : Type} (files : list (path_content A))
  : list (option A) :=
  map (fun file => match file with
                   | Csv table => Some table
                   | _ => None
                   end) files.

End Phase1Files.

Module EachFunctionHash.

(** Latency_analysis_each_function.py, lines 74-128, called with
    [use_transaction_hash=True] (line 158).  Rows without a hash are
    dropped when the file is read (line 88), the frames are merged on the
    hash and the records with a missing cell are dropped (line 122).  An
    exception inside the [try] of a file (the read, or the selection of
    line 94 on a file without the [Transaction Hash] column) is printed and
    the file is passed over. *)
Definition latency_frame (file : path_content HashLatencyCsv)
  : option (list HashLatencyRow) * list message :=
  match file with
  | NoFile => (None, [FileNotFound])
  | ReadRaises => (None, [ErrorReading])
  | Csv f =>
      let df := if hc_has_hash_column f
                then dropna_hash (hf_rows (hc_table f))
                else hf_rows (hc_table f) in
      if hf_has_latency_column (hc_table f) then
        if hc_has_hash_column f then (Some df, [])
        else (None, [ErrorReading])
      else (None, [LatencyColumnNotFound])
  end.

(** Lines 104-114 for one block file. *)
Definition gas_frame (file : path_content (list BlockRow))
  : option (list GasRow) * list message :=
  match file with
  | NoFile => (None, [FileNotFound])
  | ReadRaises => (None, [ErrorReadingGasData])
  | Csv rows => (Some (map with_block_size_KB rows), [])
  end.

Definition frames {A B : Type} (frame : A -> option (list B) * list message)
    (files : list A) : list B :=
  flat_map (fun file => match fst (frame file) with
                        | Some df => df
                        | None => []
                        end) files.

Definition loading_messages (data_files : list (path_content HashLatencyCsv))
    (block_files : list (path_content (list BlockRow))) : list message :=
  (flat_map (fun file => snd (latency_frame file)) data_files
   ++ flat_map (fun file => snd (gas_frame file)) block_files)%list.

Definition process_service_data
    (data_files : list (path_content HashLatencyCsv))
    (block_files : list (path_content (list BlockRow)))
  : list HashMerged * list message :=
  let all_latency_data := frames latency_frame data_files in
  let all_gas_data := frames gas_frame block_files in
  match all_latency_data, all_gas_data with
  | _ :: _, _ :: _ =>
      (dropna_merged (merge_inner all_gas_data all_latency_data),
       loading_messages data_files block_files)
  | _, _ =>
      ([], (loading_messages data_files block_files ++ [NoDataAvailable])%list)
  end.

End EachFunctionHash.

End Loader.


(** * Part II: proofs *)

Lemma Qgtb_lt x y : Qgtb x y = true <-> y < x.
Proof.
  unfold Qgtb. rewrite negb_true_iff.
  destruct (Qle_bool x y) eqn:E.
  - apply Qle_bool_iff in E. split; [discriminate | intro; lra].
  - split; [intros _ | reflexivity].
    destruct (Qlt_le_dec y x) as [H | H]; [exact H |].
    apply Qle_bool_iff in H. congruence.
Qed.

Lemma Qltb_lt x y : Qltb x y = true <-> x < y.
Proof. unfold Qltb. apply (Qgtb_lt y x). Qed.

Lemma Qltb_Qgtb x y : Qltb x y = Qgtb y x.
Proof. reflexivity. Qed.

Lemma Qnat_plus n m : Qnat (n + m) == Qnat n + Qnat m.
Proof. unfold Qnat. rewrite Nat2Z.inj_add, inject_Z_plus. reflexivity. Qed.

Lemma Qnat_mult n m : Qnat (n * m) == Qnat n * Qnat m.
Proof. unfold Qnat. rewrite Nat2Z.inj_mul, inject_Z_mult. reflexivity. Qed.

Lemma Qnat_le n m : (n <= m)%nat <-> Qnat n <= Qnat m.
Proof. unfold Qnat. rewrite <- Zle_Qle. lia. Qed.

Lemma Qnat_lt n m : (n < m)%nat <-> Qnat n < Qnat m.
Proof. unfold Qnat. rewrite <- Zlt_Qlt. lia. Qed.

Lemma Qnat_nonneg n : 0 <= Qnat n.
Proof. apply (Qnat_le 0 n). lia. Qed.

Lemma list_sum_cons x l : list_sum (x :: l) = (x + list_sum l)%nat.
Proof. reflexivity. Qed.

Lemma count_if_app {A} (p : A -> bool) l1 l2 :
  count_if p (l1 ++ l2) = (count_if p l1 + count_if p l2)%nat.
Proof. unfold count_if. rewrite filter_app, length_app. reflexivity. Qed.

Lemma count_if_le_length {A} (p : A -> bool) l :
  (count_if p l <= length l)%nat.
Proof.
  unfold count_if. induction l as [| a l IH]; simpl; [lia |].
  destruct (p a); simpl; lia.
Qed.

Lemma count_if_map {A B} (f : A -> B) (p : B -> bool) l :
  count_if p (map f l) = count_if (fun a => p (f a)) l.
Proof.
  unfold count_if. induction l as [| a l IH]; simpl; [reflexivity |].
  destruct (p (f a)); simpl; congruence.
Qed.

Lemma count_if_ext {A} (p q : A -> bool) l :
  (forall a, In a l -> p a = q a) -> count_if p l = count_if q l.
Proof.
  unfold count_if. induction l as [| a l IH]; intros H; simpl; [reflexivity |].
  rewrite (H a (or_introl eq_refl)).
  destruct (q a); simpl; rewrite IH; auto; intros; apply H; right; assumption.
Qed.

(** Two predicates that never hold together select at most the whole list. *)
Lemma count_if_disjoint {A} (p q : A -> bool) l :
  (forall a, p a = true -> q a = true -> False) ->
  (count_if p l + count_if q l <= length l)%nat.
Proof.
  intros D. unfold count_if. induction l as [| a l IH]; simpl; [lia |].
  destruct (p a) eqn:Ep, (q a) eqn:Eq; simpl; try lia.
  exfalso. eauto.
Qed.

Module CliffsFacts.
Import Cliffs.

Lemma all_pairs_length A B : length (all_pairs A B) = (length A * length B)%nat.
Proof.
  unfold all_pairs. induction A as [| a A IH]; simpl; [reflexivity |].
  rewrite length_app, length_map, IH. reflexivity.
Qed.

(** Counting over the comprehension is a sum, row by row. *)
Lemma count_all_pairs (p : Q * Q -> bool) A B :
  count_if p (all_pairs A B)
  = list_sum (map (fun a => count_if (fun b => p (a, b)) B) A).
Proof.
  unfold all_pairs. induction A as [| a A IH]; [reflexivity |].
  cbn [flat_map]. rewrite map_cons, list_sum_cons, count_if_app, count_if_map, IH.
  reflexivity.
Qed.

Lemma n_concordant_exceed A B : n_concordant A B = exceed_count A B.
Proof.
  unfold n_concordant, exceed_count. rewrite count_all_pairs. reflexivity.
Qed.

(** Exchanging the two loops of a double count. *)
Lemma list_sum_swap (p : Q -> Q -> bool) A B :
  list_sum (map (fun a => count_if (fun b => p a b) B) A)
  = list_sum (map (fun b => count_if (fun a => p a b) A) B).
Proof.
  induction A as [| a A IH].
  - induction B as [| b B IHB]; [reflexivity | exact IHB].
  - rewrite map_cons, list_sum_cons, IH. clear IH.
    induction B as [| b B IHB]; [reflexivity |].
    rewrite !map_cons, !list_sum_cons, <- IHB.
    unfold count_if. cbn [filter].
    destruct (p a b); cbn [length]; lia.
Qed.

Lemma n_discordant_exceed A B : n_discordant A B = exceed_count B A.
Proof.
  unfold n_discordant, exceed_count. rewrite count_all_pairs. simpl.
  apply (list_sum_swap (fun a b => Qltb a b)).
Qed.

Lemma concordant_discordant_le A B :
  (n_concordant A B + n_discordant A B <= length A * length B)%nat.
Proof.
  rewrite <- all_pairs_length. apply count_if_disjoint.
  intros [x y]; simpl. rewrite Qgtb_lt, Qltb_lt. intros; lra.
Qed.

End CliffsFacts.

Section CliffsDeltaClaim.
Import Cliffs CliffsFacts.

Lemma product_size_pos (A B : list Q) :
  A <> [] -> B <> [] -> 0 < Qnat (length A * length B).
Proof.
  intros HA HB. apply (Qnat_lt 0).
  destruct A; [congruence |]. destruct B; [congruence |]. simpl. lia.
Qed.

(** C5.  For non-empty groups [A] and [B], [cliffs_delta] returns a value
    (no division by zero), computed over all [|A| * |B|] pairs of the
    Cartesian product; the value is (number of pairs with a > b minus
    number of pairs with a < b) / (|A| * |B|); it lies in [-1, 1]; and it is
    positive exactly when the pairs in which [A] exceeds [B] outnumber the
    pairs in which [B] exceeds [A]. *)
Theorem cliffs_delta_correct (A B : list Q) (HA : A <> []) (HB : B <> []) :
  exists d : Q,
    cliffs_delta A B = Some d
    /\ length (all_pairs A B) = (length A * length B)%nat
    /\ d == delta_spec A B
    /\ (-1 <= d /\ d <= 1)
    /\ (0 < d <-> (exceed_count B A < exceed_count A B)%nat).
Proof.
  pose proof (product_size_pos A B HA HB) as Hpos.
  pose proof (concordant_discordant_le A B) as Hle.
  unfold cliffs_delta.
  destruct (length A * length B =? 0)%nat eqn:E.
  - apply Nat.eqb_eq in E. rewrite E in Hpos. exfalso.
    revert Hpos. apply Qlt_irrefl.
  - eexists. split; [reflexivity |]. split; [apply all_pairs_length |].
    rewrite n_concordant_exceed, n_discordant_exceed in *.
    set (c := exceed_count A B) in *. set (d := exceed_count B A) in *.
    set (N := (length A * length B)%nat) in *.
    assert (Hc : Qnat c + Qnat d <= Qnat N).
    { rewrite <- Qnat_plus. apply Qnat_le. exact Hle. }
    pose proof (Qnat_nonneg c) as Hc0. pose proof (Qnat_nonneg d) as Hd0.
    split; [| split; [split |]].
    + unfold delta_spec. subst N. rewrite Qnat_mult. reflexivity.
    + apply Qle_shift_div_l; [exact Hpos | lra].
    + apply Qle_shift_div_r; [exact Hpos | lra].
    + split; intros H.
      * apply Qnat_lt.
        assert (H1 : 0 * Qnat N < (Qnat c - Qnat d) / Qnat N * Qnat N).
        { apply Qmult_lt_compat_r; assumption. }
        assert (H2 : (Qnat c - Qnat d) / Qnat N * Qnat N == Qnat c - Qnat d).
        { field. intro Hz. rewrite Hz in Hpos. revert Hpos. apply Qlt_irrefl. }
        lra.
      * apply Qnat_lt in H. apply Qlt_shift_div_l; [exact Hpos | lra].
Qed.

(** The theorem at the groups [4; 5; 6] and [1; 5]. *)
Lemma cliffs_delta_correct_witness :
  exists d : Q,
    cliffs_delta [4; 5; 6] [1; 5] = Some d
    /\ length (all_pairs [4; 5; 6] [1; 5]) = 6%nat
    /\ d == delta_spec [4; 5; 6] [1; 5]
    /\ (-1 <= d /\ d <= 1)
    /\ (0 < d <-> lt (exceed_count [1; 5] [4; 5; 6]) (exceed_count [4; 5; 6] [1; 5])).
Proof.
  apply (cliffs_delta_correct [4; 5; 6] [1; 5]); discriminate.
Defined.

End CliffsDeltaClaim.

(** ** The Quintile Binner *)
Module BinnerFacts.
Import Binner.

Lemma insert_perm v l : Permutation (insert v l) (v :: l).
Proof.
  induction l as [| w l IH]; simpl; [apply Permutation_refl |].
  destruct (Qle_bool v w); [apply Permutation_refl |].
  apply Permutation_trans with (w :: v :: l);
    [apply perm_skip; exact IH | apply perm_swap].
Qed.

Lemma sort_perm l : Permutation (sort l) l.
Proof.
  induction l as [| v l IH]; simpl; [constructor |].
  apply Permutation_trans with (v :: sort l);
    [apply insert_perm | apply perm_skip; exact IH].
Qed.

Lemma sort_length l : length (sort l) = length l.
Proof. apply Permutation_length, sort_perm. Qed.

Lemma insert_sorted v l :
  StronglySorted Qle l -> StronglySorted Qle (insert v l).
Proof.
  induction 1 as [| w l Hs IH Hw]; simpl.
  - repeat constructor.
  - destruct (Qle_bool v w) eqn:E.
    + apply Qle_bool_iff in E. constructor; [constructor; assumption |].
      constructor; [exact E |].
      eapply Forall_impl; [| exact Hw]. intros; simpl in *; lra.
    + assert (Hwv : w <= v).
      { destruct (Qlt_le_dec w v) as [H | H]; [lra |].
        apply Qle_bool_iff in H. congruence. }
      constructor; [exact IH |].
      apply (Permutation_Forall (Permutation_sym (insert_perm v l))).
      constructor; assumption.
Qed.

Lemma sort_sorted l : StronglySorted Qle (sort l).
Proof.
  induction l as [| v l IH]; simpl; [constructor | apply insert_sorted, IH].
Qed.

Lemma existsb_Qeq_InA v l : existsb (Qeq_bool v) l = true <-> InA Qeq v l.
Proof.
  rewrite existsb_exists, InA_alt. split; intros [w [H1 H2]]; exists w.
  - split; [apply Qeq_bool_iff; exact H2 | exact H1].
  - split; [exact H2 | apply Qeq_bool_iff; exact H1].
Qed.

Lemma distinct_values_length l : (length (distinct_values l) <= length l)%nat.
Proof.
  induction l as [| v l IH]; simpl; [lia |].
  destruct (existsb (Qeq_bool v) l); simpl; lia.
Qed.

(** As many distinct values as records: no value occurs twice. *)
Lemma n_distinct_full l : n_distinct l = length l -> NoDupA Qeq l.
Proof.
  unfold n_distinct. induction l as [| v l IH]; simpl; intros H.
  - constructor.
  - pose proof (distinct_values_length l) as Hle.
    destruct (existsb (Qeq_bool v) l) eqn:E; simpl in H; [lia |].
    constructor; [| apply IH; lia].
    rewrite <- existsb_Qeq_InA. congruence.
Qed.

Lemma NoDupA_perm l l' : Permutation l l' -> NoDupA Qeq l -> NoDupA Qeq l'.
Proof.
  intros P. apply PermutationA_preserves_NoDupA; [exact Q_Setoid |].
  apply Permutation_PermutationA; [exact Q_Setoid | exact P].
Qed.

Lemma sorted_strict l :
  StronglySorted Qle l -> NoDupA Qeq l -> StronglySorted Qlt l.
Proof.
  induction 1 as [| v l Hs IH Hv]; intros Hd; [constructor |].
  inversion Hd as [| v' l' Hnin Hd' ]; subst.
  constructor; [apply IH; exact Hd' |].
  rewrite Forall_forall in *. intros w Hw.
  destruct (Qlt_le_dec v w) as [H | H]; [exact H |].
  exfalso. apply Hnin. apply InA_alt. exists w. split; [| exact Hw].
  apply Qle_antisym; [apply Hv; exact Hw | exact H].
Qed.

Lemma strict_increasing s : StronglySorted Qlt s -> increasing s.
Proof.
  induction 1 as [| v l Hs IH Hv]; intros i j Hij; simpl in *; [lia |].
  destruct j as [| j]; [lia |]. destruct i as [| i].
  - rewrite Forall_forall in Hv. apply Hv, nth_In. lia.
  - apply IH. lia.
Qed.

Lemma sort_increasing x : n_distinct x = length x -> increasing (sort x).
Proof.
  intros H. apply strict_increasing, sorted_strict; [apply sort_sorted |].
  apply NoDupA_perm with x; [apply Permutation_sym, sort_perm |].
  apply n_distinct_full, H.
Qed.

(** Division by 5 made linear: quotient and remainder of [a]. *)
Ltac euclid5 a :=
  pose proof (Nat.div_mod_eq a 5);
  pose proof (Nat.mod_upper_bound a 5 ltac:(discriminate)).

Lemma gamma_bounds r : (r < 5)%nat -> 0 <= Qnat r / 5 /\ Qnat r / 5 < 1.
Proof.
  intros Hr. split.
  - apply Qle_shift_div_l; [lra |]. pose proof (Qnat_nonneg r). lra.
  - apply Qlt_shift_div_r; [lra |]. apply (Qnat_lt r 5) in Hr.
    change (Qnat 5) with 5 in Hr. lra.
Qed.

Section Interpolation.

Variable s : list Q.
Hypothesis Hinc : increasing s.

Lemma nth_le_nth i j :
  (i <= j < length s)%nat -> nth i s 0 <= nth j s 0.
Proof.
  intros H. destruct (Nat.eq_dec i j) as [-> | Hne]; [lra |].
  apply Qlt_le_weak, Hinc. lia.
Qed.

Lemma nth_eq_inv i j :
  (i < length s)%nat -> (j < length s)%nat ->
  nth i s 0 == nth j s 0 -> i = j.
Proof.
  intros Hi Hj E.
  destruct (Nat.lt_trichotomy i j) as [H | [H | H]]; [| exact H |].
  - assert (nth i s 0 < nth j s 0) by (apply Hinc; lia). lra.
  - assert (nth j s 0 < nth i s 0) by (apply Hinc; lia). lra.
Qed.

(** A value at or below the integer part of the virtual index is not above
    the interpolated edge. *)
Lemma interpolate_ge i pos :
  (pos <= 5 * (length s - 1))%nat -> (i <= pos / 5)%nat ->
  nth i s 0 <= interpolate s pos.
Proof.
  intros Hpos Hi. unfold interpolate. euclid5 pos.
  assert (Hlo : (pos / 5 <= length s - 1)%nat) by lia.
  destruct (gamma_bounds (pos mod 5)) as [G0 G1]; [lia |].
  destruct (Nat.eq_dec (length s) 0) as [Hz | Hn].
  - rewrite !(nth_overflow s) by lia. lra.
  - assert (Ha : nth i s 0 <= nth (pos / 5) s 0) by (apply nth_le_nth; lia).
    assert (Hb : nth (pos / 5) s 0
                 <= nth (Nat.min (pos / 5 + 1) (length s - 1)) s 0)
      by (apply nth_le_nth; lia).
    nra.
Qed.

(** A value beyond the integer part of the virtual index is above the
    interpolated edge. *)
Lemma interpolate_lt i pos :
  (pos / 5 < i < length s)%nat -> interpolate s pos < nth i s 0.
Proof.
  intros Hi. unfold interpolate. euclid5 pos.
  destruct (gamma_bounds (pos mod 5)) as [G0 G1]; [lia |].
  replace (Nat.min (pos / 5 + 1) (length s - 1)) with (pos / 5 + 1)%nat by lia.
  assert (Ha : nth (pos / 5) s 0 < nth (pos / 5 + 1) s 0) by (apply Hinc; lia).
  assert (Hb : nth (pos / 5 + 1) s 0 <= nth i s 0) by (apply nth_le_nth; lia).
  nra.
Qed.

Local Notation "'cut' k" := (cut_index (length s) k) (at level 10, k at level 9).

Lemma cut_bounds :
  (cut 0 = 0 /\ cut 1 <= cut 2 /\ cut 2 <= cut 3 /\ cut 3 <= cut 4
   /\ cut 4 <= cut 5 /\ cut 5 = length s - 1)%nat.
Proof.
  unfold cut_index.
  euclid5 ((length s - 1) * 0)%nat. euclid5 ((length s - 1) * 1)%nat.
  euclid5 ((length s - 1) * 2)%nat. euclid5 ((length s - 1) * 3)%nat.
  euclid5 ((length s - 1) * 4)%nat. euclid5 ((length s - 1) * 5)%nat.
  lia.
Qed.

Lemma quantile_0 : quantile s 0 == nth 0 s 0.
Proof.
  unfold quantile, interpolate. rewrite Nat.mul_0_r.
  change (0 / 5)%nat with 0%nat.
  assert (G : Qnat (0 mod 5) / 5 == 0) by reflexivity.
  rewrite G. ring.
Qed.

End Interpolation.

Lemma count_if_perm {A} (p : A -> bool) l l' :
  Permutation l l' -> count_if p l = count_if p l'.
Proof.
  unfold count_if. induction 1; simpl; try congruence.
  - destruct (p x); simpl; congruence.
  - destruct (p x), (p y); reflexivity.
Qed.

Lemma count_if_positions {A} (p : A -> bool) (d : A) l :
  count_if p l = count_if (fun i => p (nth i l d)) (seq 0 (length l)).
Proof.
  induction l as [| v l IH]; [reflexivity |].
  cbn [length seq]. rewrite <- seq_shift.
  pose proof (count_if_map S (fun i => p (nth i (v :: l) d))
                (seq 0 (length l))) as E.
  unfold count_if in *. cbn [filter]. change (nth 0 (v :: l) d) with v.
  destruct (p v); cbn [length]; rewrite E, IH; reflexivity.
Qed.

Lemma count_upto b n :
  count_if (fun i => (i <=? b)%nat) (seq 0 n) = Nat.min (b + 1) n.
Proof.
  induction n as [| n IH]; [unfold count_if; cbn [seq filter length]; lia |].
  rewrite seq_S, count_if_app, IH. unfold count_if. cbn [filter Nat.add].
  destruct (Nat.leb_spec n b); cbn [length]; lia.
Qed.

Lemma count_between a b n :
  count_if (fun i => ((a <? i) && (i <=? b))%nat) (seq 0 n)
  = (Nat.min (b + 1) n - Nat.min (a + 1) n)%nat.
Proof.
  induction n as [| n IH]; [unfold count_if; cbn [seq filter length]; lia |].
  rewrite seq_S, count_if_app, IH. unfold count_if. cbn [filter Nat.add].
  destruct (Nat.ltb_spec a n), (Nat.leb_spec n b); cbn [andb length]; lia.
Qed.

Lemma qcut_inv x labels :
  qcut x = Some labels ->
  x <> []
  /\ unique_edges (bin_edges x) = true
  /\ labels = map (fun v => label_of_id (bin_id (bin_edges x) v)) x.
Proof.
  unfold qcut. destruct x as [| v x]; [discriminate |].
  destruct (unique_edges (bin_edges (v :: x))) eqn:E; [| discriminate].
  intros [= <-]. repeat split. discriminate.
Qed.

(** A single record cannot be cut: the six edges are that one value. *)
Lemma qcut_singleton v : qcut [v] = None.
Proof.
  unfold qcut, bin_edges, quantile_points, quantile. cbn [map sort fold_right insert length Nat.sub Nat.mul].
  cbn [unique_edges existsb]. rewrite Qeq_bool_refl. reflexivity.
Qed.

Lemma qcut_length_ge_2 x labels : qcut x = Some labels -> (2 <= length x)%nat.
Proof.
  intros H. destruct x as [| v [| w x]]; simpl; try lia.
  - discriminate.
  - rewrite qcut_singleton in H. discriminate.
Qed.

(** *** Columns with few distinct values *)



Lemma searchsorted_left_compat bins v w :
  v == w -> searchsorted_left bins v = searchsorted_left bins w.
Proof.
  intros E. induction bins as [| b bs IH]; simpl; [reflexivity |].
  unfold Qltb. rewrite E, IH. reflexivity.
Qed.

(** Equal values fall in the same bin. *)
Lemma bin_id_compat bins v w : v == w -> bin_id bins v = bin_id bins w.
Proof.
  intros E. unfold bin_id.
  rewrite (searchsorted_left_compat bins v w E), E. reflexivity.
Qed.



(** All values equal: the edges coincide and the cut is refused. *)
Lemma qcut_constant x :
  (forall a b, In a x -> In b x -> a == b) -> qcut x = None.
Proof.
  intros Heq. destruct (qcut x) as [labels |] eqn:Hq; [| reflexivity].
  exfalso.
  pose proof (qcut_length_ge_2 x labels Hq) as Hn.
  destruct (qcut_inv x labels Hq) as (_ & Hu & _).
  assert (Hall : forall i, (i < length (sort x))%nat ->
                           nth i (sort x) 0 == nth 0 (sort x) 0).
  { intros i Hi. apply Heq;
      apply (Permutation_in _ (sort_perm x)); apply nth_In; lia. }
  pose proof (sort_length x) as Hlen.
  assert (Hk : forall pos, (pos <= 5 * (length (sort x) - 1))%nat ->
                 interpolate (sort x) pos == nth 0 (sort x) 0).
  { intros pos Hpos. unfold interpolate. euclid5 pos.
    rewrite (Hall (pos / 5)%nat) by lia.
    rewrite (Hall (Nat.min (pos / 5 + 1) (length (sort x) - 1))) by lia.
    ring. }
  unfold bin_edges, quantile_points, quantile in Hu. cbn [map unique_edges existsb] in Hu.
  assert (E : Qeq_bool (interpolate (sort x) ((length (sort x) - 1) * 0))
                (interpolate (sort x) ((length (sort x) - 1) * 1)) = true).
  { apply Qeq_bool_iff. rewrite !Hk by lia. reflexivity. }
  rewrite E in Hu. discriminate.
Qed.

End BinnerFacts.

Module BinnerMore.
Import Binner BinnerFacts.

Lemma sorted_nth_le s :
  StronglySorted Qle s ->
  forall i j, (i <= j < List.length s)%nat -> nth i s 0 <= nth j s 0.
Proof.
  induction 1 as [| v l Hs IH Hv]; intros i j Hij; simpl in *; [lia |].
  destruct j as [| j].
  - assert (i = 0)%nat by lia. subst. lra.
  - destruct i as [| i].
    + rewrite Forall_forall in Hv. apply Hv, nth_In. lia.
    + apply IH. lia.
Qed.

Lemma quantile_5 s : quantile s 5 == nth (List.length s - 1) s 0.
Proof.
  unfold quantile, interpolate.
  rewrite Nat.div_mul by discriminate. rewrite Nat.Div0.mod_mul.
  replace (Nat.min (List.length s - 1 + 1) (List.length s - 1))
    with (List.length s - 1)%nat by lia.
  ring.
Qed.

(** Every value of the column lies between the lowest and the highest
    edge. *)
Lemma value_between_edges x v :
  In v x ->
  quantile (sort x) 0 <= v /\ v <= quantile (sort x) 5.
Proof.
  intros Hin. rewrite quantile_0, quantile_5.
  apply (Permutation_in _ (Permutation_sym (sort_perm x))) in Hin.
  destruct (In_nth _ _ 0 Hin) as [i [Hi <-]].
  pose proof (sort_sorted x) as Hs.
  split; apply (sorted_nth_le _ Hs); lia.
Qed.

(** A value of the column gets one of the bin ids 1..5. *)
Lemma bin_id_in_range x v :
  In v x -> (1 <= bin_id (bin_edges x) v <= 5)%nat.
Proof.
  intros Hin. destruct (value_between_edges x v Hin) as [H0 H5].
  unfold bin_id, bin_edges, quantile_points. cbn [map hd searchsorted_left].
  destruct (Qeq_bool v (quantile (sort x) 0)) eqn:E0; [lia |].
  assert (L0 : Qltb (quantile (sort x) 0) v = true).
  { apply Qltb_lt. apply Qeq_bool_neq in E0.
    destruct (Qlt_le_dec (quantile (sort x) 0) v) as [H | H]; [exact H |].
    exfalso. apply E0. apply Qle_antisym; assumption. }
  assert (L5 : Qltb (quantile (sort x) 5) v = false).
  { destruct (Qltb (quantile (sort x) 5) v) eqn:E; [| reflexivity].
    apply Qltb_lt in E. lra. }
  rewrite L0, L5.
  destruct (Qltb (quantile (sort x) 1) v); [| lia].
  destruct (Qltb (quantile (sort x) 2) v); [| lia].
  destruct (Qltb (quantile (sort x) 3) v); [| lia].
  destruct (Qltb (quantile (sort x) 4) v); lia.
Qed.

Lemma label_of_id_rank id :
  (1 <= id <= 5)%nat ->
  exists q, label_of_id id = Some q /\ quintile_rank q = id.
Proof.
  intros H.
  destruct id as [| [| [| [| [| [| id]]]]]]; try lia;
    eexists; split; reflexivity.
Qed.

Lemma bin_sizes_total labels :
  Forall (fun c => c <> None) labels ->
  list_sum (bin_sizes labels) = List.length labels.
Proof.
  unfold bin_sizes, quintile_labels, bin_size, count_if.
  induction 1 as [| c labels Hc HF IH]; [reflexivity |].
  cbn [map list_sum fold_right filter List.length] in *.
  destruct c as [[] |]; [| | | | | congruence];
    cbn [label_is quintile_eqb List.length]; lia.
Qed.

(** The search is monotone in the value. *)
Lemma searchsorted_left_mono bins v w :
  v <= w -> (searchsorted_left bins v <= searchsorted_left bins w)%nat.
Proof.
  intros Hvw. induction bins as [| b bs IH]; simpl; [lia |].
  destruct (Qltb b v) eqn:Ev; [| lia].
  assert (Ew : Qltb b w = true).
  { apply Qltb_lt. apply Qltb_lt in Ev. lra. }
  rewrite Ew. lia.
Qed.

Lemma bin_id_mono b bs v w :
  v <= w -> (bin_id (b :: bs) v <= bin_id (b :: bs) w)%nat.
Proof.
  intros Hvw. unfold bin_id. cbn [hd].
  destruct (Qeq_bool v b) eqn:Ev, (Qeq_bool w b) eqn:Ew.
  - lia.
  - apply Qeq_bool_iff in Ev. apply Qeq_bool_neq in Ew.
    cbn [searchsorted_left].
    assert (E : Qltb b w = true).
    { apply Qltb_lt. destruct (Qlt_le_dec b w) as [H | H]; [exact H |].
      exfalso. apply Ew. apply Qle_antisym; lra. }
    rewrite E. lia.
  - apply Qeq_bool_iff in Ew. cbn [searchsorted_left].
    destruct (Qltb b v) eqn:E; [| lia].
    apply Qltb_lt in E. lra.
  - apply searchsorted_left_mono, Hvw.
Qed.

End BinnerMore.

(** ** The binner on any six edges *)
Module BinnerEdges.
Import Binner BinnerFacts BinnerMore.

Lemma dropna_some x : dropna (map Some x) = x.
Proof. induction x as [| v x IH]; simpl; [reflexivity | f_equal; exact IH]. Qed.

Lemma in_dropna x v : In v (dropna x) <-> In (Some v) x.
Proof.
  induction x as [| [w |] x IH]; simpl.
  - tauto.
  - rewrite IH. split; intros [H | H]; auto; left; congruence.
  - rewrite IH. split; [auto | intros [H | H]; [discriminate | exact H]].
Qed.

Lemma qcut_with_inv bins x labels :
  qcut_with bins x = Some labels ->
  dropna x <> []
  /\ unique_edges bins = true
  /\ labels = map (cut_cell bins) x.
Proof.
  unfold qcut_with. destruct (dropna x) as [| v vals]; [discriminate |].
  destruct (unique_edges bins); [| discriminate].
  intros [= <-]. repeat split. discriminate.
Qed.

(** The exact call on a column without missing cells. *)
Lemma qcut_series_complete x : qcut_series (map Some x) = qcut x.
Proof.
  unfold qcut_series, qcut_with, qcut. rewrite dropna_some.
  destruct x as [| v x]; [reflexivity |].
  destruct (unique_edges _); [| reflexivity].
  rewrite map_map. reflexivity.
Qed.

Lemma last_nth (s : list Q) : last s 0 = nth (List.length s - 1) s 0.
Proof.
  induction s as [| a [| b s] IH]; [reflexivity | reflexivity |].
  change (last (a :: b :: s) 0) with (last (b :: s) 0). rewrite IH.
  simpl. rewrite Nat.sub_0_r. reflexivity.
Qed.

Lemma nondecreasing_sorted l : nondecreasing l = true -> StronglySorted Qle l.
Proof.
  intros H. apply Sorted_StronglySorted; [exact Qle_trans |].
  induction l as [| a [| b l] IH]; [constructor | repeat constructor |].
  simpl in H. apply andb_true_iff in H. destruct H as [Hab H].
  constructor; [apply IH, H |]. constructor. apply Qle_bool_iff, Hab.
Qed.

(** The contract, read out. *)
Lemma quantile_edges_inv vals bins :
  vals <> [] -> quantile_edges vals bins = true ->
  exists e0 e1 e2 e3 e4 e5,
    bins = [e0; e1; e2; e3; e4; e5]
    /\ StronglySorted Qle bins
    /\ e0 == nth 0 (sort vals) 0
    /\ e5 == nth (List.length vals - 1) (sort vals) 0.
Proof.
  intros Hne H. unfold quantile_edges in H.
  pose proof (sort_length vals) as Hlen.
  destruct (sort vals) as [| lowest s] eqn:Es.
  { destruct vals; [contradiction | discriminate]. }
  rewrite !andb_true_iff in H. destruct H as [[[Hl Hs] H0] H5].
  apply Nat.eqb_eq in Hl.
  destruct bins as [| e0 [| e1 [| e2 [| e3 [| e4 [| e5 [| e6 bins]]]]]]];
    try discriminate.
  exists e0, e1, e2, e3, e4, e5. split; [reflexivity |].
  split; [apply nondecreasing_sorted, Hs |].
  apply Qeq_bool_iff in H0. apply Qeq_bool_iff in H5.
  split; [exact H0 |].
  rewrite (last_nth (lowest :: s)) in H5. cbn [last] in H5.
  rewrite <- Hlen. exact H5.
Qed.

Lemma value_in_range vals v :
  In v vals ->
  nth 0 (sort vals) 0 <= v /\ v <= nth (List.length vals - 1) (sort vals) 0.
Proof.
  intros Hin.
  apply (Permutation_in _ (Permutation_sym (sort_perm vals))) in Hin.
  destruct (In_nth _ _ 0 Hin) as [i [Hi <-]].
  pose proof (sort_sorted vals) as Hs. pose proof (sort_length vals) as Hl.
  split; apply (sorted_nth_le _ Hs); lia.
Qed.

Lemma bin_id_between e0 e1 e2 e3 e4 e5 v :
  e0 <= v -> v <= e5 -> (1 <= bin_id [e0; e1; e2; e3; e4; e5] v <= 5)%nat.
Proof.
  intros H0 H5. unfold bin_id. cbn [hd searchsorted_left].
  destruct (Qeq_bool v e0) eqn:E0; [lia |].
  assert (L0 : Qltb e0 v = true).
  { apply Qltb_lt. apply Qeq_bool_neq in E0.
    destruct (Qlt_le_dec e0 v) as [H | H]; [exact H |].
    exfalso. apply E0. apply Qle_antisym; assumption. }
  assert (L5 : Qltb e5 v = false).
  { destruct (Qltb e5 v) eqn:E; [| reflexivity]. apply Qltb_lt in E. lra. }
  rewrite L0, L5.
  destruct (Qltb e1 v); [| lia]. destruct (Qltb e2 v); [| lia].
  destruct (Qltb e3 v); [| lia]. destruct (Qltb e4 v); lia.
Qed.

Lemma bin_id_in_edges vals bins v :
  quantile_edges vals bins = true -> In v vals ->
  (1 <= bin_id bins v <= 5)%nat.
Proof.
  intros Hc Hin.
  assert (Hne : vals <> []) by (intros ->; destruct Hin).
  destruct (quantile_edges_inv vals bins Hne Hc)
    as (e0 & e1 & e2 & e3 & e4 & e5 & -> & _ & H0 & H5).
  destruct (value_in_range vals v Hin) as [Hlo Hhi].
  apply bin_id_between; [rewrite H0 | rewrite H5]; assumption.
Qed.

(** The size of a bin only counts the cells that hold a value. *)
Lemma bin_size_dropna bins x q :
  bin_size (map (cut_cell bins) x) q
  = count_if (fun v => label_is q (label_of_id (bin_id bins v))) (dropna x).
Proof.
  unfold bin_size, count_if.
  induction x as [| [v |] x IH]; [reflexivity | |].
  - cbn [map cut_cell dropna flat_map app filter].
    fold (dropna x).
    destruct (label_is q (label_of_id (bin_id bins v))); cbn [List.length];
      rewrite IH; reflexivity.
  - cbn [map cut_cell dropna flat_map app filter label_is]. exact IH.
Qed.

Lemma bin_sizes_dropna bins x :
  bin_sizes (map (cut_cell bins) x)
  = bin_sizes (map (fun v => label_of_id (bin_id bins v)) (dropna x)).
Proof.
  unfold bin_sizes. apply map_ext. intros q.
  rewrite bin_size_dropna. unfold bin_size. rewrite count_if_map. reflexivity.
Qed.

Lemma labels_of_values vals bins :
  quantile_edges vals bins = true ->
  Forall (fun c => c <> None)
         (map (fun v => label_of_id (bin_id bins v)) vals).
Proof.
  intros Hc. apply Forall_forall. intros c Hin.
  apply in_map_iff in Hin. destruct Hin as [v [<- Hv]].
  destruct (label_of_id_rank _ (bin_id_in_edges vals bins v Hc Hv)) as [q [-> _]].
  discriminate.
Qed.

Lemma bin_sizes_sum bins x :
  quantile_edges (dropna x) bins = true ->
  list_sum (bin_sizes (map (cut_cell bins) x)) = List.length (dropna x).
Proof.
  intros Hc. rewrite bin_sizes_dropna.
  rewrite (bin_sizes_total _ (labels_of_values _ _ Hc)). apply length_map.
Qed.

Section EdgesInPlace.

Variable s : list Q.
Hypothesis Hinc : increasing s.
Hypothesis Hn : (2 <= List.length s)%nat.
Variables e0 e1 e2 e3 e4 e5 : Q.
Hypothesis H0 : e0 == nth 0 s 0.
Hypothesis H5 : e5 == nth (List.length s - 1) s 0.
Hypothesis Hplace :
  forall k, (1 <= k <= 4)%nat ->
            edge_in_place s [e0; e1; e2; e3; e4; e5] k = true.

Local Notation "'cut' k" := (cut_index (List.length s) k) (at level 10, k at level 9).

Lemma cut_interior k : (1 <= k <= 4)%nat -> (cut k + 1 < List.length s)%nat.
Proof.
  intros Hk. unfold cut_index.
  euclid5 ((List.length s - 1) * k)%nat. nia.
Qed.

(** An edge is below a sorted value exactly when its cut index is. *)
Lemma placed_edge_ltb k i :
  (k <= 5)%nat -> (i < List.length s)%nat ->
  Qltb (nth k [e0; e1; e2; e3; e4; e5] 0) (nth i s 0) = (cut k <? i)%nat.
Proof.
  intros Hk Hi.
  destruct (cut_bounds s) as (C0 & _ & _ & _ & _ & C5).
  destruct (Nat.eq_dec k 0) as [-> | Hk0].
  { cbn [nth]. rewrite C0.
    destruct (Nat.ltb_spec 0 i) as [H | H].
    - apply Qltb_lt. rewrite H0. apply Hinc. lia.
    - assert (i = 0)%nat by lia. subst i.
      destruct (Qltb e0 (nth 0 s 0)) eqn:E; [| reflexivity].
      apply Qltb_lt in E. lra. }
  destruct (Nat.eq_dec k 5) as [-> | Hk5].
  { cbn [nth]. rewrite C5.
    destruct (Nat.ltb_spec (List.length s - 1) i) as [H | H]; [lia |].
    destruct (Qltb e5 (nth i s 0)) eqn:E; [| reflexivity].
    apply Qltb_lt in E.
    assert (nth i s 0 <= nth (List.length s - 1) s 0)
      by (apply (nth_le_nth s Hinc); lia).
    lra. }
  assert (Hk' : (1 <= k <= 4)%nat) by lia.
  pose proof (Hplace k Hk') as P. unfold edge_in_place in P.
  apply andb_true_iff in P. destruct P as [Plo Phi].
  apply Qle_bool_iff in Plo. apply Qltb_lt in Phi.
  pose proof (cut_interior k Hk') as Hc.
  destruct (Nat.ltb_spec (cut k) i) as [H | H].
  - apply Qltb_lt.
    assert (nth (cut k + 1) s 0 <= nth i s 0)
      by (apply (nth_le_nth s Hinc); lia).
    lra.
  - destruct (Qltb _ (nth i s 0)) eqn:E; [| reflexivity].
    apply Qltb_lt in E.
    assert (nth i s 0 <= nth (cut k) s 0)
      by (apply (nth_le_nth s Hinc); lia).
    lra.
Qed.

(** Which sorted positions fall in a bin. *)
Lemma placed_label q i :
  (i < List.length s)%nat ->
  label_is q (label_of_id (bin_id [e0; e1; e2; e3; e4; e5] (nth i s 0)))
  = match q with
    | Q1 => (i <=? cut 1)%nat
    | Q2 => ((cut 1 <? i) && (i <=? cut 2))%nat
    | Q3 => ((cut 2 <? i) && (i <=? cut 3))%nat
    | Q4 => ((cut 3 <? i) && (i <=? cut 4))%nat
    | Q5 => ((cut 4 <? i) && (i <=? cut 5))%nat
    end.
Proof.
  intros Hi. unfold bin_id. cbn [hd searchsorted_left].
  pose proof (placed_edge_ltb 0 i) as L0. pose proof (placed_edge_ltb 1 i) as L1.
  pose proof (placed_edge_ltb 2 i) as L2. pose proof (placed_edge_ltb 3 i) as L3.
  pose proof (placed_edge_ltb 4 i) as L4. pose proof (placed_edge_ltb 5 i) as L5.
  cbn [nth] in L0, L1, L2, L3, L4, L5.
  rewrite L0, L1, L2, L3, L4, L5 by lia.
  destruct (cut_bounds s) as (C0 & C1 & C2 & C3 & C4 & C5).
  assert (E0 : Qeq_bool (nth i s 0) e0 = (i =? 0)%nat).
  { destruct (Nat.eqb_spec i 0) as [-> | Hne].
    - apply Qeq_bool_iff. symmetry. exact H0.
    - destruct (Qeq_bool _ _) eqn:E; [| reflexivity].
      apply Qeq_bool_iff in E. rewrite H0 in E.
      apply (nth_eq_inv s Hinc) in E; [contradiction | lia | lia]. }
  rewrite E0.
  generalize dependent (cut 0). generalize dependent (cut 1).
  generalize dependent (cut 2). generalize dependent (cut 3).
  generalize dependent (cut 4). generalize dependent (cut 5).
  intros c5 _ C5 c4 _ C4 c3 _ C3 c2 _ C2 c1 _ C1 c0 _ C0.
  destruct (Nat.eqb_spec i 0);
    destruct (Nat.ltb_spec c0 i); destruct (Nat.ltb_spec c1 i);
    destruct (Nat.ltb_spec c2 i); destruct (Nat.ltb_spec c3 i);
    destruct (Nat.ltb_spec c4 i); destruct (Nat.ltb_spec c5 i);
    try lia;
    destruct q; cbn [label_of_id label_is quintile_eqb andb];
    repeat match goal with
           | |- context [(?a <=? ?b)%nat] => destruct (Nat.leb_spec a b)
           end; try reflexivity; lia.
Qed.

End EdgesInPlace.

Lemma edges_in_place_inv vals bins :
  edges_in_place vals bins = true ->
  forall k, (1 <= k <= 4)%nat -> edge_in_place (sort vals) bins k = true.
Proof.
  unfold edges_in_place. cbn [forallb]. rewrite !andb_true_iff.
  intros (P1 & P2 & P3 & P4 & _) k Hk.
  assert (k = 1 \/ k = 2 \/ k = 3 \/ k = 4)%nat as [-> | [-> | [-> | ->]]]
    by lia; assumption.
Qed.

Lemma unique_edges_ends e0 e1 e2 e3 e4 e5 :
  unique_edges [e0; e1; e2; e3; e4; e5] = true -> ~ e0 == e5.
Proof.
  cbn [unique_edges existsb]. intros H E.
  apply Qeq_bool_iff in E. rewrite E in H.
  rewrite !orb_true_r in H. discriminate.
Qed.

(** A column that is cut has two values at least. *)
Lemma qcut_with_two_values bins x labels :
  quantile_edges (dropna x) bins = true ->
  qcut_with bins x = Some labels -> (2 <= List.length (dropna x))%nat.
Proof.
  intros Hc Hq. destruct (qcut_with_inv bins x labels Hq) as (Hne & Hu & _).
  destruct (quantile_edges_inv _ bins Hne Hc)
    as (e0 & e1 & e2 & e3 & e4 & e5 & -> & _ & H0 & H5).
  destruct (dropna x) as [| v [| w vals]]; [contradiction | | simpl; lia].
  exfalso. apply (unique_edges_ends _ _ _ _ _ _ Hu).
  rewrite H0, H5. reflexivity.
Qed.

(** With pairwise distinct values and every interior edge in place, the
    size of each bin is the distance between two consecutive cut
    indices. *)
Lemma placed_sizes bins x :
  let vals := dropna x in
  let labels := map (cut_cell bins) x in
  n_distinct vals = List.length vals -> (2 <= List.length vals)%nat ->
  quantile_edges vals bins = true -> edges_in_place vals bins = true ->
  bin_size labels Q1 = (cut_index (List.length vals) 1 + 1)%nat
  /\ bin_size labels Q2
     = (cut_index (List.length vals) 2 - cut_index (List.length vals) 1)%nat
  /\ bin_size labels Q3
     = (cut_index (List.length vals) 3 - cut_index (List.length vals) 2)%nat
  /\ bin_size labels Q4
     = (cut_index (List.length vals) 4 - cut_index (List.length vals) 3)%nat
  /\ bin_size labels Q5
     = (cut_index (List.length vals) 5 - cut_index (List.length vals) 4)%nat.
Proof.
  intros vals labels Hd Hn Hc Hp.
  pose proof (sort_increasing vals Hd) as Hinc.
  pose proof (sort_length vals) as Hlen.
  assert (Hs : (2 <= List.length (sort vals))%nat) by lia.
  assert (Hne : vals <> []) by (intros E; rewrite E in Hn; simpl in Hn; lia).
  destruct (quantile_edges_inv vals bins Hne Hc)
    as (e0 & e1 & e2 & e3 & e4 & e5 & Eb & _ & H0 & H5).
  pose proof (edges_in_place_inv vals bins Hp) as Hplace.
  rewrite Eb in Hplace. rewrite <- Hlen in H5.
  assert (Hsize : forall q,
    bin_size labels q
    = count_if
        (fun i => match q with
                  | Q1 => (i <=? cut_index (List.length vals) 1)%nat
                  | Q2 => ((cut_index (List.length vals) 1 <? i)
                           && (i <=? cut_index (List.length vals) 2))%nat
                  | Q3 => ((cut_index (List.length vals) 2 <? i)
                           && (i <=? cut_index (List.length vals) 3))%nat
                  | Q4 => ((cut_index (List.length vals) 3 <? i)
                           && (i <=? cut_index (List.length vals) 4))%nat
                  | Q5 => ((cut_index (List.length vals) 4 <? i)
                           && (i <=? cut_index (List.length vals) 5))%nat
                  end) (seq 0 (List.length vals))).
  { intros q. unfold labels. rewrite bin_size_dropna. fold vals.
    rewrite (count_if_perm _ _ _ (Permutation_sym (sort_perm vals))).
    rewrite (count_if_positions _ 0 (sort vals)), Hlen.
    apply count_if_ext. intros i Hi. apply in_seq in Hi.
    rewrite Eb.
    rewrite (placed_label (sort vals) Hinc Hs e0 e1 e2 e3 e4 e5 H0 H5 Hplace q i)
      by lia.
    rewrite Hlen. reflexivity. }
  destruct (cut_bounds (sort vals)) as (C0 & C1 & C2 & C3 & C4 & C5).
  rewrite Hlen in *.
  rewrite !Hsize, count_upto, !count_between.
  repeat split; lia.
Qed.

Lemma nth_error_labels bins x i v :
  nth_error x i = Some (Some v) ->
  nth_error (map (cut_cell bins) x) i = Some (label_of_id (bin_id bins v)).
Proof. intros H. rewrite nth_error_map, H. reflexivity. Qed.




(** The labels follow the cells: a label for each cell that holds a value,
    none for a missing cell. *)
Lemma labels_follow_cells bins x :
  quantile_edges (dropna x) bins = true ->
  Forall2 (fun c l => match c with
                      | Some _ => exists q, l = Some q
                      | None => l = None
                      end) x (map (cut_cell bins) x).
Proof.
  intros Hc.
  assert (H : forall c, In c x ->
            match c with
            | Some _ => exists q, cut_cell bins c = Some q
            | None => cut_cell bins c = None
            end).
  { intros [v |] Hin; [| reflexivity]. cbn [cut_cell].
    apply in_dropna in Hin.
    destruct (label_of_id_rank _ (bin_id_in_edges _ bins v Hc Hin)) as [q [-> _]].
    exists q. reflexivity. }
  clear Hc. induction x as [| c x IH]; [constructor |].
  cbn [map]. constructor.
  - apply H. left. reflexivity.
  - apply IH. intros c' Hc'. apply H. right. exact Hc'.
Qed.

(** The rows of the five bins are the rows that carry a label. *)
Lemma bins_partition_labelled {A} (cells : list (option quintile * A)) :
  Permutation
    (concat (map (fun q => map snd (filter (fun c => label_is q (fst c)) cells))
                 quintile_labels))
    (map snd (filter (fun c => match fst c with
                               | Some _ => true
                               | None => false
                               end) cells)).
Proof.
  unfold quintile_labels. cbn [map concat]. rewrite app_nil_r.
  induction cells as [| [c v] cells IH]; [constructor |].
  cbn [filter map fst snd] in *.
  destruct c as [[] |];
    cbn [label_is quintile_eqb map app]; [| | | | | exact IH];
    apply Permutation_sym; rewrite ?(app_assoc _ _ (v :: _));
    first [apply perm_skip | apply Permutation_cons_app];
    rewrite <- ?app_assoc; apply Permutation_sym, IH.
Qed.

Lemma labelled_rows {A} (x : list (option Q)) labels (rows : list A) :
  Forall2 (fun c l => match c with
                      | Some _ => exists q, l = Some q
                      | None => l = None
                      end) x labels ->
  map snd (filter (fun c : option quintile * A =>
                     match fst c with Some _ => true | None => false end)
                  (combine labels rows))
  = rows_with_value x rows.
Proof.
  unfold rows_with_value. intros HF. revert rows.
  induction HF as [| c l x labels Hcl HF IH]; intros rows; [reflexivity |].
  destruct rows as [| r rows]; [reflexivity |].
  cbn [combine filter fst]. destruct c as [v |].
  - destruct Hcl as [q ->]. cbn [map snd]. f_equal. apply IH.
  - subst l. apply IH.
Qed.

(** *** The edges interpolated without rounding meet both conditions *)

Lemma gamma_le r r' : (r <= r')%nat -> Qnat r / 5 <= Qnat r' / 5.
Proof.
  intros H. apply Qnat_le in H.
  apply Qle_shift_div_l; [lra |].
  assert (E : Qnat r / 5 * 5 == Qnat r) by field.
  rewrite E. exact H.
Qed.

Lemma interpolate_mono s pos pos' :
  StronglySorted Qle s ->
  (pos <= pos')%nat -> (pos' <= 5 * (List.length s - 1))%nat ->
  interpolate s pos <= interpolate s pos'.
Proof.
  intros Hs Hle Hpos'. euclid5 pos. euclid5 pos'.
  destruct (gamma_bounds (pos mod 5)) as [G0 G1]; [lia |].
  destruct (gamma_bounds (pos' mod 5)) as [G0' G1']; [lia |].
  destruct (Nat.eq_dec (List.length s) 0) as [Hz | Hnz].
  { unfold interpolate. rewrite !(nth_overflow s) by lia. lra. }
  assert (Hnth : forall i j, (i <= j < List.length s)%nat ->
                             nth i s 0 <= nth j s 0)
    by (apply sorted_nth_le, Hs).
  destruct (Nat.eq_dec (pos / 5) (pos' / 5)) as [E | NE].
  - unfold interpolate. rewrite <- E.
    assert (Ha : nth (pos / 5) s 0
                 <= nth (Nat.min (pos / 5 + 1) (List.length s - 1)) s 0)
      by (apply Hnth; lia).
    assert (G : Qnat (pos mod 5) / 5 <= Qnat (pos' mod 5) / 5)
      by (apply gamma_le; lia).
    nra.
  - apply Qle_trans with (nth (pos / 5 + 1) s 0).
    + unfold interpolate.
      replace (Nat.min (pos / 5 + 1) (List.length s - 1))
        with (pos / 5 + 1)%nat by lia.
      assert (Ha : nth (pos / 5) s 0 <= nth (pos / 5 + 1) s 0)
        by (apply Hnth; lia).
      nra.
    + apply Qle_trans with (nth (pos' / 5) s 0); [apply Hnth; lia |].
      unfold interpolate.
      assert (Ha : nth (pos' / 5) s 0
                   <= nth (Nat.min (pos' / 5 + 1) (List.length s - 1)) s 0)
        by (apply Hnth; lia).
      nra.
Qed.

Lemma bin_edges_contract vals :
  quantile_edges vals (bin_edges vals) = true.
Proof.
  unfold quantile_edges.
  pose proof (sort_sorted vals) as Hs.
  destruct (sort vals) as [| lowest s] eqn:Es; [reflexivity |].
  unfold bin_edges, quantile_points. rewrite Es. cbn [map List.length Nat.eqb andb hd].
  assert (Hm : forall k, (k < 5)%nat ->
            Qle_bool (quantile (lowest :: s) k) (quantile (lowest :: s) (S k))
            = true).
  { intros k Hk. apply Qle_bool_iff. unfold quantile.
    apply interpolate_mono; [exact Hs | nia | nia]. }
  cbn [nondecreasing]. rewrite !Hm by lia. cbn [andb].
  apply andb_true_iff. split; apply Qeq_bool_iff.
  - rewrite quantile_0. reflexivity.
  - cbn [last]. rewrite quantile_5, <- last_nth. reflexivity.
Qed.

Lemma bin_edges_in_place vals :
  n_distinct vals = List.length vals -> (2 <= List.length vals)%nat ->
  edges_in_place vals (bin_edges vals) = true.
Proof.
  intros Hd Hn.
  pose proof (sort_increasing vals Hd) as Hinc.
  pose proof (sort_length vals) as Hlen.
  assert (Hk : forall k, (1 <= k <= 4)%nat ->
            edge_in_place (sort vals) (bin_edges vals) k = true).
  { intros k Hk. unfold edge_in_place, bin_edges, quantile_points.
    assert (E : nth k (map (quantile (sort vals)) [0; 1; 2; 3; 4; 5]%nat) 0
                = quantile (sort vals) k).
    { assert (k = 1 \/ k = 2 \/ k = 3 \/ k = 4)%nat as [-> | [-> | [-> | ->]]]
        by lia; reflexivity. }
    rewrite E. unfold quantile, cut_index.
    apply andb_true_iff. split.
    - apply Qle_bool_iff. apply (interpolate_ge _ Hinc); [nia | lia].
    - apply Qltb_lt. apply (interpolate_lt _ Hinc).
      euclid5 ((List.length (sort vals) - 1) * k)%nat. nia. }
  unfold edges_in_place. cbn [forallb]. rewrite !Hk by lia. reflexivity.
Qed.

(** The call of the scripts on a column without missing cells. *)
Lemma qcut_is_qcut_with x : qcut x = qcut_with (bin_edges x) (map Some x).
Proof. rewrite <- qcut_series_complete. unfold qcut_series. rewrite dropna_some. reflexivity. Qed.

End BinnerEdges.

Section BinnerClaims.
Import Binner BinnerFacts BinnerMore BinnerEdges.

(** C3, as stated, fails.  The column [1, 2, 3, 3, 3, 4, 5, 6, 7, 8] has
    the edges 1, 2.8, 3, 4.4, 6.2, 8, all different, so the binner
    succeeds; the three records of value 3 fall together in Q2 and leave
    one record for Q3: the sizes are 2, 3, 1, 2, 2. *)
Lemma qcut_ties_unbalanced :
  exists labels,
    qcut [1; 2; 3; 3; 3; 4; 5; 6; 7; 8] = Some labels
    /\ bin_sizes labels = [2; 3; 1; 2; 2]%nat
    /\ (bin_size labels Q3 + 1 < bin_size labels Q2)%nat.
Proof.
  eexists. split; [vm_compute; reflexivity |].
  split; [reflexivity | vm_compute; lia].
Qed.

(** C3, amended.  The statement is about the call on the six edges that
    the quantile step returned, whatever its rounding, for a column that
    may have missing cells; N is the number of records that have a value.
    Whenever the Quintile Binner succeeds, there is one label per record,
    the sizes of the five bins add up to N, and records with equal values
    carry the same label.  When moreover the values are pairwise distinct
    and every interior edge is in place (at or above the value of rank
    floor((N-1)k/5) and strictly below the next one), any two bin sizes
    differ by at most 1 and each bin holds floor(N/5) or ceil(N/5)
    records. *)
Theorem qcut_distinct_balanced (x : list (option Q)) (bins : list Q)
    (labels : list (option quintile)) :
  quantile_edges (dropna x) bins = true ->
  qcut_with bins x = Some labels ->
  let N := length (dropna x) in
  length labels = length x
  /\ list_sum (bin_sizes labels) = N
  /\ (forall i j v w,
        nth_error x i = Some (Some v) -> nth_error x j = Some (Some w) ->
        v == w -> nth_error labels i = nth_error labels j)
  /\ (n_distinct (dropna x) = N -> edges_in_place (dropna x) bins = true ->
      (forall q q', bin_size labels q <= bin_size labels q' + 1)%nat
      /\ (forall q, bin_size labels q = (N / 5)%nat
                    \/ bin_size labels q = ((N + 4) / 5)%nat)).
Proof.
  intros Hc Hq N.
  pose proof (qcut_with_two_values bins x labels Hc Hq) as Hn.
  destruct (qcut_with_inv bins x labels Hq) as (_ & _ & ->).
  split; [apply length_map |].
  split; [apply bin_sizes_sum, Hc |].
  split.
  - intros i j v w Hi Hj E.
    rewrite (nth_error_labels bins x i v Hi), (nth_error_labels bins x j w Hj).
    rewrite (bin_id_compat bins v w E). reflexivity.
  - intros Hd Hp.
    destruct (placed_sizes bins x Hd Hn Hc Hp) as (S1 & S2 & S3 & S4 & S5).
    unfold cut_index in *. fold N in S1, S2, S3, S4, S5, Hn.
    set (m := (N - 1)%nat) in *.
    euclid5 (m * 1)%nat. euclid5 (m * 2)%nat. euclid5 (m * 3)%nat.
    euclid5 (m * 4)%nat. euclid5 (m * 5)%nat.
    euclid5 N. euclid5 (N + 4)%nat.
    assert (Hm : N = S m) by (subst m; lia).
    split.
    + intros q q'. destruct q, q'; rewrite ?S1, ?S2, ?S3, ?S4, ?S5; lia.
    + intros q. destruct q; rewrite ?S1, ?S2, ?S3, ?S4, ?S5; lia.
Qed.

(** The theorem at a column of seven distinct values and one missing cell,
    with the edges 10, 22, 34, 46, 58, 70. *)
Lemma qcut_distinct_balanced_witness :
  let x := [Some 30; None; Some 10; Some 50; Some 20; Some 40; Some 60; Some 70] in
  let labels := [Some Q2; None; Some Q1; Some Q4; Some Q1; Some Q3; Some Q5;
                 Some Q5] in
  length labels = length x
  /\ list_sum (bin_sizes labels) = 7%nat
  /\ (forall q q', bin_size labels q <= bin_size labels q' + 1)%nat
  /\ (forall q, bin_size labels q = 1%nat \/ bin_size labels q = 2%nat).
Proof.
  intros x labels.
  destruct (qcut_distinct_balanced x [10; 22; 34; 46; 58; 70] labels)
    as (Hl & Hs & _ & Hb); [reflexivity | reflexivity |].
  split; [exact Hl |]. split; [exact Hs |].
  apply Hb; reflexivity.
Defined.




(** Why the two amended statements ask for the edges to be in place.
    Three columns with the edges that binary64 leaves (written to the
    digits that decide the comparisons), beside the edges interpolated
    without rounding.  In the first, 1 + 0.6 * 2^-52 is rounded onto the
    value 1 + 2^-52 and Q4 stays empty.  In the second, the weight of the
    fourth edge is 2^-50 instead of 0: the edge is not the value 5 any
    more and the column with ties is cut.  In the third, values that are 2
    apart near 10^16, the third and the fourth edge are rounded onto the
    same value and five distinct values are refused. *)
Lemma rounded_edges_change_the_bins :
  let next := 1 + (1 # 4503599627370496) in
  let a := map Some [-2; -1; 0; 1; next; 5; 6] in
  let b := map Some [1; 2; 3; 4; 5; 5; 5; 6; 7; 8; 9] in
  let big := 10000000000000000 in
  let c := map Some [big; big + 2; big + 4; big + 6; big + 8] in
  (option_map bin_sizes
     (qcut_with [-2; -8 # 10; 4 # 10; next; 42 # 10; 6] a)
   = Some [2; 1; 2; 0; 2]%nat
   /\ option_map bin_sizes (qcut_series a) = Some [2; 1; 1; 1; 2]%nat)
  /\ (option_map bin_sizes
        (qcut_with [1; 3; 5; 5 + (1 # 1125899906842624); 7; 9] b)
      = Some [3; 4; 0; 2; 2]%nat
      /\ qcut_series b = None)
  /\ (qcut_with [big; big + 2; big + 4; big + 4; big + 6; big + 8] c = None
      /\ option_map bin_sizes (qcut_series c) = Some [1; 1; 1; 1; 1]%nat).
Proof. repeat split; vm_compute; reflexivity. Qed.

End BinnerClaims.

(** ** The Loader *)
Module LoaderFacts.
Import Loader.

Lemma dropna_axis1_left_only has_user (gas : list GasRow) :
  dropna_axis1 has_user
    (map (fun a => (Some a, @None LatencyRow)) gas) = [].
Proof. induction gas as [| g gas IH]; simpl; [reflexivity | exact IH]. Qed.

Lemma dropna_axis1_right_only has_user (lat : list LatencyRow) :
  dropna_axis1 has_user
    (map (fun b => (@None GasRow, Some b)) lat) = [].
Proof. induction lat as [| l lat IH]; simpl; [reflexivity | exact IH]. Qed.

(** On complete rows, aligning by position and dropping the rows with a
    missing cell is zipping the two tables. *)
Lemma dropna_concat_axis1 has_user gas lat :
  Forall (fun g => gas_complete g = true) gas ->
  Forall (fun l => latency_complete has_user l = true) lat ->
  dropna_axis1 has_user (concat_axis1 gas lat)
  = map (fun c => {| im_gas := fst c; im_latency := snd c |})
        (combine gas lat).
Proof.
  intros Hg. revert lat.
  induction Hg as [| g gas Hc Hg IH]; intros lat Hl.
  - simpl. apply dropna_axis1_right_only.
  - destruct Hl as [| l lat Hlc Hl].
    + cbn [concat_axis1 combine map].
      apply (dropna_axis1_left_only has_user (g :: gas)).
    + cbn [concat_axis1 combine map dropna_axis1 flat_map fst snd].
      rewrite Hc, Hlc. cbn [andb app]. f_equal. apply IH, Hl.
Qed.

Lemma nth_error_combine {A B} (l : list A) (r : list B) i a b :
  nth_error l i = Some a -> nth_error r i = Some b ->
  nth_error (combine l r) i = Some (a, b).
Proof.
  revert r i. induction l as [| x l IH]; intros r i Ha Hb.
  - destruct i; discriminate.
  - destruct r as [| y r]; [destruct i; discriminate |].
    destruct i as [| i]; simpl in *; [congruence | apply IH; assumption].
Qed.

Lemma hash_eqb_eq a b : hash_eqb a b = true <-> a = b.
Proof.
  destruct a as [x |], b as [y |]; simpl; try (split; congruence).
  rewrite String.eqb_eq. split; congruence.
Qed.

Lemma filter_unique_key (right : list HashLatencyRow) h :
  NoDup (map hl_transaction_hash right) ->
  List.length (filter (fun l => hash_eqb h (hl_transaction_hash l)) right)
  = if existsb (hash_eqb h) (map hl_transaction_hash right) then 1%nat
    else 0%nat.
Proof.
  induction right as [| l right IH]; simpl; [reflexivity |].
  intros Hnd. inversion Hnd as [| k ks Hnin Hnd']; subst.
  specialize (IH Hnd').
  destruct (hash_eqb h (hl_transaction_hash l)) eqn:E; simpl.
  - apply hash_eqb_eq in E. subst h.
    destruct (existsb _ _) eqn:Ex in IH.
    + apply existsb_exists in Ex. destruct Ex as [k [Hk Ek]].
      apply hash_eqb_eq in Ek. subst k. contradiction.
    + rewrite IH. reflexivity.
  - exact IH.
Qed.

(** The inner-join law: with unique keys in the latency table, the merge
    holds one record for each block row that has a partner, and none for
    the others. *)
Lemma merge_inner_unique_keys left right :
  NoDup (map hl_transaction_hash right) ->
  List.length (merge_inner left right)
  = count_if (fun g => existsb (hash_eqb (g_transaction_hash g))
                               (map hl_transaction_hash right)) left.
Proof.
  intros Hnd. unfold merge_inner, count_if.
  induction left as [| g left IH]; simpl; [reflexivity |].
  rewrite length_app, length_map, (filter_unique_key right _ Hnd), IH.
  destruct (existsb _ _); reflexivity.
Qed.

End LoaderFacts.

Section LoaderClaims.
Import Loader LoaderFacts.

(** C10.  In index-based mode, when the loaded block table (Ng rows) and
    the loaded latency table (Nl rows) are non-empty and have no missing
    cell, the result of [process_service_data] has exactly min(Ng, Nl)
    rows, its i-th row is the i-th block row beside the i-th latency row,
    and the rows of the longer table beyond that are dropped without any
    message: the merge prints nothing. *)
Theorem index_merge_min_rows
    (data_files : list (option LatencyFile))
    (block_files : list (option (list BlockRow))) :
  let gas := all_gas_data with_block_size_KB block_files in
  let lat := EachFunction.all_latency_data data_files in
  let result := EachFunction.process_service_data data_files block_files in
  gas <> [] -> lt_rows lat <> [] ->
  Forall (fun g => gas_complete g = true) gas ->
  Forall (fun l => latency_complete (lt_has_UserIndex lat) l = true)
         (lt_rows lat) ->
  List.length (fst result) = Nat.min (List.length gas) (List.length (lt_rows lat))
  /\ (forall i g l,
        nth_error gas i = Some g -> nth_error (lt_rows lat) i = Some l ->
        nth_error (fst result) i = Some {| im_gas := g; im_latency := l |})
  /\ snd result = EachFunction.loading_messages data_files block_files.
Proof.
  intros gas lat result Hg Hl Cg Cl.
  unfold result, EachFunction.process_service_data,
    EachFunction.merge_index_based.
  fold gas. fold lat.
  destruct (lt_rows lat) as [| l0 lrest] eqn:El; [congruence |].
  destruct gas as [| g0 grest] eqn:Eg; [congruence |].
  cbn [fst snd]. rewrite (dropna_concat_axis1 _ _ _ Cg Cl).
  split; [| split].
  - rewrite length_map, length_combine. reflexivity.
  - intros i g l Hi Hj.
    rewrite nth_error_map, (nth_error_combine _ _ i g l Hi Hj). reflexivity.
  - apply app_nil_r.
Qed.

(** The theorem at one block file of three rows and one latency file of
    two groups. *)
Lemma index_merge_min_rows_witness :
  let block (n : Z) :=
    {| b_gas_price := Some (inject_Z n); b_block_size_bytes := Some 2048;
       b_transaction_count := Some 7; b_transaction_hash := Some "0xa"%string |} in
  let lat (it : Z) :=
    {| Iteration := Some it; UserIndex := Some 0%Z; Latency := Some (inject_Z it) |} in
  let data_files :=
    [Some {| has_Iteration := true; has_UserIndex := true;
             has_latency_column := true; rows := [lat 1%Z; lat 2%Z] |}] in
  let block_files := [Some [block 10%Z; block 11%Z; block 12%Z]] in
  let gas := all_gas_data with_block_size_KB block_files in
  let table := EachFunction.all_latency_data data_files in
  let result := EachFunction.process_service_data data_files block_files in
  List.length (fst result) = Nat.min (List.length gas) (List.length (lt_rows table))
  /\ (forall i g l,
        nth_error gas i = Some g -> nth_error (lt_rows table) i = Some l ->
        nth_error (fst result) i = Some {| im_gas := g; im_latency := l |})
  /\ snd result = EachFunction.loading_messages data_files block_files.
Proof.
  intros block lat data_files block_files.
  apply (index_merge_min_rows data_files block_files).
  - discriminate.
  - discriminate.
  - repeat constructor.
  - repeat constructor.
Defined.

(** C7 at the failing input.  One block row and one latency row share the
    hash "0xa"; the latency cell is missing.  The loader of
    Statistical_analysis_HighGasUsed.py returns the merged record with its
    missing latency; the loader of Phase1, which ends the same merge with
    [.dropna()], returns no record. *)
Theorem hash_merge_keeps_missing_latency :
  let block_files :=
    [Some [{| b_gas_price := Some 20; b_block_size_bytes := Some 2048;
              b_transaction_count := Some 7;
              b_transaction_hash := Some "0xa"%string |}]] in
  let data_files :=
    [Some {| hf_has_latency_column := true;
             hf_rows := [{| hl_latency := None;
                            hl_transaction_hash := Some "0xa"%string |}] |}] in
  HighGasUsed.process_service_data data_files block_files true
  = Some [{| hm_gas := {| g_gas_price := Some 20; g_block_size := Some 2048;
                          g_transaction_count := Some 7;
                          g_transaction_hash := Some "0xa"%string |};
             hm_latency := None |}]
  /\ Phase1.process_service_data data_files block_files = [].
Proof. split; reflexivity. Qed.

End LoaderClaims.

(** ** Grouping the latency rows *)
Module GroupByFacts.
Import Loader.

Section SortBy.

Context {A : Type} (leb : A -> A -> bool).
Hypothesis leb_total : forall a b, leb a b = true \/ leb b a = true.
Hypothesis leb_trans :
  forall a b c, leb a b = true -> leb b c = true -> leb a c = true.

Lemma insert_by_perm a l : Permutation (insert_by leb a l) (a :: l).
Proof.
  induction l as [| b l IH]; simpl; [apply Permutation_refl |].
  destruct (leb a b); [apply Permutation_refl |].
  apply Permutation_trans with (b :: a :: l);
    [apply perm_skip; exact IH | apply perm_swap].
Qed.

Lemma sort_by_perm l : Permutation (sort_by leb l) l.
Proof.
  induction l as [| a l IH]; simpl; [constructor |].
  apply Permutation_trans with (a :: sort_by leb l);
    [apply insert_by_perm | apply perm_skip; exact IH].
Qed.

Lemma insert_by_sorted a l :
  StronglySorted (fun x y => leb x y = true) l ->
  StronglySorted (fun x y => leb x y = true) (insert_by leb a l).
Proof.
  induction 1 as [| b l Hs IH Hb]; simpl.
  - repeat constructor.
  - destruct (leb a b) eqn:E.
    + constructor; [constructor; assumption |].
      constructor; [exact E |].
      eapply Forall_impl; [| exact Hb]. intros c Hc. simpl in Hc.
      exact (leb_trans a b c E Hc).
    + constructor; [exact IH |].
      apply (Permutation_Forall (Permutation_sym (insert_by_perm a l))).
      constructor; [| exact Hb].
      destruct (leb_total a b) as [H | H]; [congruence | exact H].
Qed.

Lemma sort_by_sorted l :
  StronglySorted (fun x y => leb x y = true) (sort_by leb l).
Proof.
  induction l as [| a l IH]; simpl; [constructor | apply insert_by_sorted, IH].
Qed.

End SortBy.

Lemma user_eqb_eq a b : user_eqb a b = true <-> a = b.
Proof.
  destruct a as [x |], b as [y |]; simpl; try (split; congruence).
  rewrite Z.eqb_eq. split; congruence.
Qed.

Lemma key_eqb_eq (a b : key) : key_eqb a b = true <-> a = b.
Proof.
  destruct a as [i u], b as [j v]. unfold key_eqb. simpl.
  rewrite andb_true_iff, Z.eqb_eq, user_eqb_eq. split.
  - intros [-> ->]. reflexivity.
  - intros [= -> ->]. split; reflexivity.
Qed.

Lemma key_leb_total (a b : key) : key_leb a b = true \/ key_leb b a = true.
Proof.
  destruct a as [i [x |]], b as [j [y |]]; unfold key_leb; simpl;
    destruct (Z.ltb_spec i j), (Z.ltb_spec j i), (Z.eqb_spec i j),
      (Z.eqb_spec j i); simpl; auto; try lia;
    destruct (Z.leb_spec x y), (Z.leb_spec y x); auto; lia.
Qed.

Lemma key_leb_trans (a b c : key) :
  key_leb a b = true -> key_leb b c = true -> key_leb a c = true.
Proof.
  destruct a as [i u], b as [j v], c as [k w]. unfold key_leb. simpl.
  destruct (Z.ltb_spec i j), (Z.ltb_spec j k), (Z.ltb_spec i k),
    (Z.eqb_spec i j), (Z.eqb_spec j k), (Z.eqb_spec i k);
    simpl; try reflexivity; try discriminate; try lia.
  destruct u as [x |], v as [y |], w as [z |]; simpl;
    try reflexivity; try discriminate.
  rewrite !Z.leb_le. lia.
Qed.

Lemma existsb_key_In k l : existsb (key_eqb k) l = true <-> In k l.
Proof.
  rewrite existsb_exists. split.
  - intros [k' [Hin E]]. apply key_eqb_eq in E. subst. exact Hin.
  - intros Hin. exists k. split; [exact Hin | apply key_eqb_eq; reflexivity].
Qed.

Lemma dedup_In k l : In k (dedup l) <-> In k l.
Proof.
  induction l as [| a l IH]; simpl; [tauto |].
  destruct (existsb (key_eqb a) l) eqn:E.
  - rewrite IH. split; [tauto |]. intros [<- | H]; [| exact H].
    apply existsb_key_In, E.
  - simpl. rewrite IH. tauto.
Qed.

Lemma dedup_NoDup l : NoDup (dedup l).
Proof.
  induction l as [| a l IH]; simpl; [constructor |].
  destruct (existsb (key_eqb a) l) eqn:E; [exact IH |].
  constructor; [| exact IH].
  rewrite dedup_In, <- existsb_key_In. congruence.
Qed.

Lemma group_keys_In by_user rs k :
  In k (group_keys by_user rs)
  <-> exists r, In r rs /\ group_key by_user r = Some k.
Proof.
  unfold group_keys.
  split.
  - intros H. apply (Permutation_in _ (sort_by_perm key_leb _)) in H.
    apply dedup_In, in_flat_map in H. destruct H as [r [Hr Hk]].
    exists r. split; [exact Hr |].
    destruct (group_key by_user r) as [k' |]; simpl in Hk; [| contradiction].
    destruct Hk as [-> | []]. reflexivity.
  - intros [r [Hr Hk]].
    apply (Permutation_in _ (Permutation_sym (sort_by_perm key_leb _))).
    apply dedup_In, in_flat_map. exists r. split; [exact Hr |].
    rewrite Hk. left. reflexivity.
Qed.

Lemma group_keys_NoDup by_user rs : NoDup (group_keys by_user rs).
Proof.
  unfold group_keys.
  apply (Permutation_NoDup (Permutation_sym (sort_by_perm key_leb _))).
  apply dedup_NoDup.
Qed.

Lemma group_keys_sorted by_user rs :
  StronglySorted (fun a b => key_leb a b = true) (group_keys by_user rs).
Proof.
  unfold group_keys. apply sort_by_sorted;
    [exact key_leb_total | exact key_leb_trans].
Qed.

(** A key of a group is the key of the row built for it. *)
Lemma group_key_of_key by_user r k v :
  group_key by_user r = Some k ->
  group_key by_user
    {| Iteration := Some (fst k); UserIndex := snd k; Latency := v |} = Some k.
Proof.
  unfold group_key. destruct (Iteration r) as [it |]; [| discriminate].
  destruct by_user.
  - destruct (UserIndex r) as [u |]; [| discriminate].
    intros [= <-]. reflexivity.
  - intros [= <-]. reflexivity.
Qed.


Lemma groupby_first_keys by_user rs :
  map (group_key by_user) (groupby_first by_user rs)
  = map Some (group_keys by_user rs).
Proof.
  unfold groupby_first. rewrite map_map.
  apply map_ext_in. intros k Hk.
  apply group_keys_In in Hk. destruct Hk as [r [_ Hr]].
  apply (group_key_of_key by_user r k _ Hr).
Qed.



End GroupByFacts.

Section GroupByClaims.
Import Loader GroupByFacts.




End GroupByClaims.

(** ** The analysis scripts *)
Module AnalysisFacts.
Import Binner Analysis.

Lemma significant_lt p : significant p = true <-> p < 5 # 100.
Proof. unfold significant, significance_level. apply Qltb_lt. Qed.

Lemma significant_ge p : significant p = false <-> 5 # 100 <= p.
Proof.
  unfold significant, significance_level, Qltb.
  rewrite negb_false_iff. apply Qle_bool_iff.
Qed.

Lemma index_pairs_5 :
  index_pairs 5
  = [(0, 1); (0, 2); (0, 3); (0, 4); (1, 2); (1, 3); (1, 4);
     (2, 3); (2, 4); (3, 4)]%nat.
Proof. reflexivity. Qed.

(** The Bonferroni factor for five groups. *)
Lemma n_comparisons_5 : n_comparisons 5 = 10%nat.
Proof. reflexivity. Qed.

Section ForEach.

Context {A B : Type} (f : A -> Traced B).


(** A loop that ends has run every iteration, in order. *)
Lemma for_each_success l bs t :
  for_each f l = (Some bs, t) ->
  Forall2 (fun a b => fst (f a) = Some b) l bs
  /\ t = flat_map (fun a => snd (f a)) l.
Proof.
  revert bs t. induction l as [| a l IH]; simpl; intros bs t.
  - unfold ret. intros [= <- <-]. split; constructor.
  - unfold bind at 1. destruct (f a) as [[b |] ta] eqn:Ea; [| discriminate].
    destruct (for_each f l) as [[bs' |] t'] eqn:El; simpl; [| discriminate].
    intros [= <- <-]. destruct (IH bs' t' eq_refl) as [H1 H2].
    split; [constructor; [rewrite Ea; reflexivity | exact H1] |].
    simpl. rewrite app_nil_r, H2. reflexivity.
Qed.

End ForEach.

(** A sequence of two steps that ends has run both. *)
Lemma bind_success {A B} (m : Traced A) (f : A -> Traced B) b t :
  bind m f = (Some b, t) ->
  exists a t1 t2,
    m = (Some a, t1) /\ f a = (Some b, t2) /\ t = (t1 ++ t2)%list.
Proof.
  unfold bind. destruct m as [[a |] t1]; [| discriminate].
  destruct (f a) as [b' t2] eqn:E. intros [= -> <-].
  exists a, t1, t2. auto.
Qed.


End AnalysisFacts.

Section PosthocClaims.
Import Binner Analysis AnalysisFacts.

Variable kruskal : list (list Q) -> option (Q * Q).
Variable dunn_raw : list (list Q) -> nat -> nat -> Q.
Variable format_fixed : nat -> Q -> string.

(** C1 at the failing script.  For five groups and a pair whose
    unadjusted Dunn p-value lies strictly between 0 and 1, the p-value that
    Statistical_analysis_HighGasUsed.py and Statistical_analysis_LowGasUsed.py
    put in the post-hoc table is the unadjusted one; the Bonferroni value
    over the 10 comparisons, min(1, 10 p), which Phase1, Phase2 and
    Latency_analysis_each_function.py compute, is strictly larger. *)
Theorem statistical_posthoc_unadjusted (groups : list (list Q)) (i j : nat) :
  List.length (observed_groups groups) = 5%nat ->
  0 < dunn_raw groups i j -> dunn_raw groups i j < 1 ->
  statistical_posthoc dunn_raw groups i j = dunn_raw groups i j
  /\ phase1_posthoc dunn_raw groups i j = Qmin 1 (dunn_raw groups i j * 10)
  /\ phase2_posthoc dunn_raw groups i j = phase1_posthoc dunn_raw groups i j
  /\ statistical_posthoc dunn_raw groups i j
     < phase1_posthoc dunn_raw groups i j.
Proof.
  intros Hn H0 H1.
  unfold statistical_posthoc, phase1_posthoc, phase2_posthoc, posthoc_dunn.
  rewrite Hn, n_comparisons_5. change (Qnat 10) with 10.
  repeat split.
  apply Q.min_glb_lt; lra.
Qed.

(** C2 at the failing script.  When the Kruskal-Wallis p-value is not
    below 0.05, Latency_analysis_each_function.py prints that no
    difference was detected and then prints the Dunn matrix of all the
    pairs all the same, while the per-feature section of the
    Statistical_analysis report holds no post-hoc table. *)
Theorem each_function_posthoc_unconditional
    (groups : list (list Q)) (group_column : factor) (H p : Q) :
  kruskal groups = Some (H, p) -> significant p = false ->
  each_function_factor kruskal dunn_raw format_fixed groups group_column
  = Some [KruskalLine group_column (format_fixed 2 H) (format_fixed 4 p);
          NoDifferences group_column;
          PosthocHeader group_column;
          PosthocMatrix
            (map (fun ij => (ij, posthoc_dunn dunn_raw groups (Some bonferroni)
                                   (fst ij) (snd ij)))
                 (index_pairs (List.length (observed_groups groups))))]
  /\ statistical_feature_section kruskal dunn_raw format_fixed groups
     = (Some [KruskalResult (format_fixed 2 H) (format_fixed 4 p);
              FailToReject], []).
Proof.
  intros Hk Hs.
  unfold each_function_factor, perform_kruskal_and_summary,
    perform_dunn_posthoc, statistical_feature_section.
  rewrite Hk, Hs. split; reflexivity.
Qed.

End PosthocClaims.

Section PosthocWitnesses.
Import Binner Analysis.

(** The theorem at five groups, with 1/100 for the unadjusted p-value. *)
Lemma statistical_posthoc_unadjusted_witness :
  let dunn_raw := fun (_ : list (list Q)) (_ _ : nat) => 1 # 100 in
  let groups := [[1]; [2]; [3]; [4]; [5]] in
  statistical_posthoc dunn_raw groups 0 1 = dunn_raw groups 0%nat 1%nat
  /\ phase1_posthoc dunn_raw groups 0 1
     = Qmin 1 (dunn_raw groups 0%nat 1%nat * 10)
  /\ phase2_posthoc dunn_raw groups 0 1 = phase1_posthoc dunn_raw groups 0 1
  /\ statistical_posthoc dunn_raw groups 0 1
     < phase1_posthoc dunn_raw groups 0 1.
Proof.
  intros dunn_raw groups.
  apply (statistical_posthoc_unadjusted dunn_raw groups 0 1);
    [reflexivity | reflexivity | reflexivity].
Defined.

(** The theorem at five equal groups, with an omnibus p-value of 1. *)
Lemma each_function_posthoc_unconditional_witness :
  let kruskal := fun _ : list (list Q) => Some (0, 1) in
  let dunn_raw := fun (_ : list (list Q)) (_ _ : nat) => 1 in
  let format_fixed := fun (_ : nat) (_ : Q) => EmptyString in
  let groups := [[5]; [5]; [5]; [5]; [5]] in
  each_function_factor kruskal dunn_raw format_fixed groups GasPrice
  = Some [KruskalLine GasPrice (format_fixed 2%nat 0) (format_fixed 4%nat 1);
          NoDifferences GasPrice;
          PosthocHeader GasPrice;
          PosthocMatrix
            (map (fun ij => (ij, posthoc_dunn dunn_raw groups (Some bonferroni)
                                   (fst ij) (snd ij)))
                 (index_pairs (List.length (observed_groups groups))))]
  /\ statistical_feature_section kruskal dunn_raw format_fixed groups
     = (Some [KruskalResult (format_fixed 2%nat 0) (format_fixed 4%nat 1);
              FailToReject], []).
Proof.
  intros kruskal dunn_raw format_fixed groups.
  apply (each_function_posthoc_unconditional kruskal dunn_raw format_fixed
           groups GasPrice 0 1); reflexivity.
Defined.

End PosthocWitnesses.

Section EffectSizeClaims.
Import Binner Analysis AnalysisFacts.

Variable dunn_raw : list (list Q) -> nat -> nat -> Q.
Variable cliffs_delta_pkg : list Q -> list Q -> option (Q * string).
Variable round_to : Q -> nat -> Q.
Variable format_fixed : nat -> Q -> string.
Variable str_float : Q -> string.

Lemma flat_map_singleton {B} (g : nat * nat -> Traced B) l bs :
  Forall2 (fun a b => fst (g a) = Some b) l bs ->
  (forall a b, fst (g a) = Some b -> snd (g a) = [a]) ->
  flat_map (fun a => snd (g a)) l = l.
Proof.
  intros HF Hs. induction HF as [| a b l bs Hab HF IH]; simpl; [reflexivity |].
  rewrite (Hs a b Hab), IH. reflexivity.
Qed.

Lemma Forall2_map_back {A B} (R : A -> B -> Prop) (h : B -> A) l bs :
  Forall2 R l bs -> (forall a b, R a b -> h b = a) -> map h bs = l.
Proof.
  intros HF Hh. induction HF as [| a b l bs Hab HF IH]; simpl; [reflexivity |].
  rewrite (Hh a b Hab), IH. reflexivity.
Qed.



Lemma phase1_row_success groups ij row :
  fst (phase1_row dunn_raw cliffs_delta_pkg round_to str_float groups ij)
  = Some row ->
  snd (phase1_row dunn_raw cliffs_delta_pkg round_to str_float groups ij)
  = [ij]
  /\ p1_comparison row = ij
  /\ (p1_delta row = NotSignificantText
      <-> significant (phase1_posthoc dunn_raw groups (fst ij) (snd ij))
          = false).
Proof.
  unfold phase1_row, raise_or, effect_call, bind, ret.
  destruct (get_group groups (fst ij)) as [g1 |]; [| discriminate].
  destruct (get_group groups (snd ij)) as [g2 |]; [| discriminate].
  destruct (cliffs_delta_pkg g1 g2) as [d |]; [| discriminate].
  simpl. intros [= <-]. simpl.
  split; [reflexivity |]. split; [reflexivity |].
  destruct (significant _); split; congruence.
Qed.

Lemma phase2_row_success groups ij row :
  fst (phase2_row dunn_raw cliffs_delta_pkg round_to groups ij) = Some row ->
  snd (phase2_row dunn_raw cliffs_delta_pkg round_to groups ij) = [ij]
  /\ p2_comparison row = ij
  /\ exists g_i g_j d,
       get_group groups (fst ij) = Some g_i
       /\ get_group groups (snd ij) = Some g_j
       /\ cliffs_delta_pkg g_i g_j = Some d
       /\ p2_cliffs_delta row = round_to (fst d) 3
       /\ p2_significant row
          = significant (phase2_posthoc dunn_raw groups (fst ij) (snd ij)).
Proof.
  unfold phase2_row, raise_or, effect_call, bind, ret.
  destruct (get_group groups (fst ij)) as [g_i |]; [| discriminate].
  destruct (get_group groups (snd ij)) as [g_j |]; [| discriminate].
  destruct (cliffs_delta_pkg g_i g_j) as [d |] eqn:Ed; [| discriminate].
  simpl. intros [= <-]. simpl.
  split; [reflexivity |]. split; [reflexivity |].
  exists g_i, g_j, d. repeat split. exact Ed.
Qed.


End EffectSizeClaims.

Section EffectSizeWitnesses.
Import Binner Analysis.



End EffectSizeWitnesses.

Section ReportOnRecords.
Import Binner Analysis AnalysisFacts.

Variable kruskal : list (list Q) -> option (Q * Q).
Variable dunn_raw : list (list Q) -> nat -> nat -> Q.
Variable cliffs_delta_pkg : list Q -> list Q -> option (Q * string).
Variable round_to : Q -> nat -> Q.
Variable str_float : Q -> string.

Lemma assign_quintiles_records f df df' :
  assign_quintiles f df = Some df' -> records df' = records df.
Proof.
  unfold assign_quintiles. destruct (qcut _); [| discriminate].
  intros [= <-]. destruct f; reflexivity.
Qed.

Lemma kruskal_test_records df factors df' results :
  kruskal_test_for_factors kruskal round_to df factors = Some (df', results) ->
  records df' = records df.
Proof.
  revert df df' results.
  induction factors as [| f factors IH]; intros df df' results; simpl.
  - intros [= <- _]. reflexivity.
  - destruct (assign_quintiles f df) as [df1 |] eqn:E1; [| discriminate].
    destruct (factor_groups f df1); [| discriminate].
    destruct (kruskal _) as [[h p] |]; [| discriminate].
    destruct (kruskal_test_for_factors kruskal round_to df1 factors)
      as [[df2 rs] |] eqn:E2; [| discriminate].
    intros [= <- _].
    rewrite (IH _ _ _ E2). apply (assign_quintiles_records _ _ _ E1).
Qed.

(** The omnibus stage writes the three quintile columns anew: its result
    depends on the records only. *)
Lemma kruskal_test_records_only df1 df2 :
  records df1 = records df2 ->
  kruskal_test_for_factors kruskal round_to df1 all_factors
  = kruskal_test_for_factors kruskal round_to df2 all_factors.
Proof.
  destruct df1 as [r a1 b1 c1], df2 as [r' a2 b2 c2]. simpl. intros <-.
  unfold all_factors, kruskal_test_for_factors, assign_quintiles,
    factor_groups, factor_column, latency_column.
  cbn [records].
  destruct (qcut (map gas_price r)) as [l1 |]; [| reflexivity].
  cbn [set_quintile_column quintile_column records gas_price_Q block_size_Q
       transaction_count_Q].
  destruct (kruskal _) as [[h1 p1] |]; [| reflexivity].
  destruct (qcut (map block_size r)) as [l2 |]; [| reflexivity].
  cbn [set_quintile_column quintile_column records gas_price_Q block_size_Q
       transaction_count_Q].
  destruct (kruskal _) as [[h2 p2] |]; [| reflexivity].
  destruct (qcut (map transaction_count r)) as [l3 |]; [| reflexivity].
  cbn [set_quintile_column quintile_column records gas_price_Q block_size_Q
       transaction_count_Q].
  reflexivity.
Qed.

Lemma produce_posthoc_records df f df' rows t :
  produce_posthoc_cliffs_table dunn_raw cliffs_delta_pkg round_to str_float
    df f = (Some (df', rows), t) ->
  records df' = records df.
Proof.
  unfold produce_posthoc_cliffs_table. intros H.
  apply bind_success in H. destruct H as (df1 & t1 & t2 & H1 & H & _).
  apply bind_success in H. destruct H as (groups & t3 & t4 & _ & H & _).
  apply bind_success in H. destruct H as (rs & t5 & t6 & _ & H & _).
  unfold ret in H. injection H as <- _ _.
  unfold raise_or in H1. apply (f_equal fst) in H1. cbn [fst] in H1.
  destruct (quintile_column f df).
  - injection H1 as <-. reflexivity.
  - apply (assign_quintiles_records _ _ _ H1).
Qed.

Lemma posthoc_pages_records kw_df factors df df' pages t :
  posthoc_pages dunn_raw cliffs_delta_pkg round_to str_float kw_df df factors
  = (Some (df', pages), t) ->
  records df' = records df.
Proof.
  revert df df' pages t.
  induction factors as [| f factors IH]; intros df df' pages t H;
    cbn [posthoc_pages] in H.
  - unfold ret in H. injection H as <- _ _. reflexivity.
  - apply bind_success in H. destruct H as (row & t1 & t2 & _ & H & _).
    destruct (significant (kw_p_value row)).
    + apply bind_success in H. destruct H as ([df1 rows] & t3 & t4 & H1 & H & _).
      apply bind_success in H. destruct H as ([df2 ps] & t5 & t6 & H2 & H & _).
      unfold ret in H. cbn [fst snd] in *. injection H as <- _ _.
      rewrite (IH _ _ _ _ H2). apply (produce_posthoc_records _ _ _ _ _ H1).
    + apply (IH _ _ _ _ H).
Qed.

Lemma build_report_records df df' report t :
  build_report kruskal dunn_raw cliffs_delta_pkg round_to str_float df
  = (Some (df', report), t) ->
  records df' = records df.
Proof.
  unfold build_report. intros H.
  apply bind_success in H. destruct H as ([df1 kw] & t1 & t2 & H1 & H & _).
  apply bind_success in H. destruct H as ([df2 ps] & t3 & t4 & H2 & H & _).
  unfold ret in H. cbn [fst snd] in *. injection H as <- _ _.
  unfold raise_or in H1. apply (f_equal fst) in H1. cbn [fst] in H1.
  rewrite (posthoc_pages_records _ _ _ _ _ _ H2).
  apply (kruskal_test_records _ _ _ _ H1).
Qed.

(** [build_report] writes the three quintile columns into the table it is
    given before it reads any of them ([kruskal_test_for_factors], line
    75), and the later stages reuse a column that is there (lines 112 and
    154).  So the report depends on the records only: two tables holding
    the same records give the same Kruskal-Wallis rows, post-hoc pages,
    recorded effect-size calls and final table, whatever quintile columns
    either carried before; and a second call on the table that a first call
    has left returns what the first returned. *)
Theorem build_report_on_records (df1 df2 : DataFrame) :
  records df1 = records df2 ->
  build_report kruskal dunn_raw cliffs_delta_pkg round_to str_float df1
  = build_report kruskal dunn_raw cliffs_delta_pkg round_to str_float df2
  /\ (forall df' report calls,
        build_report kruskal dunn_raw cliffs_delta_pkg round_to str_float df1
        = (Some (df', report), calls) ->
        build_report kruskal dunn_raw cliffs_delta_pkg round_to str_float df'
        = (Some (df', report), calls)).
Proof.
  intros Hr.
  assert (Hsame : forall a b, records a = records b ->
    build_report kruskal dunn_raw cliffs_delta_pkg round_to str_float a
    = build_report kruskal dunn_raw cliffs_delta_pkg round_to str_float b).
  { intros a b Hab. unfold build_report.
    rewrite (kruskal_test_records_only a b Hab). reflexivity. }
  split; [apply Hsame, Hr |].
  intros df' report calls H.
  rewrite (Hsame df' df1); [exact H |].
  apply (build_report_records _ _ _ _ H).
Qed.

End ReportOnRecords.

Section ReportOnRecordsWitness.
Import Binner Analysis.

(** The theorem at five records, once on a fresh table and once on a table
    that carries stale quintile columns. *)
Lemma build_report_on_records_witness :
  let kruskal := fun _ : list (list Q) => Some (16, 1 # 100) in
  let dunn_raw := fun (_ : list (list Q)) (_ _ : nat) => 1 # 1000 in
  let cliffs_delta_pkg :=
    fun a b => option_map (fun d => (d, EmptyString)) (Cliffs.cliffs_delta a b) in
  let round_to := fun (v : Q) (_ : nat) => v in
  let str_float := fun _ : Q => EmptyString in
  let obs (n : Z) :=
    {| gas_price := inject_Z n; block_size := inject_Z (10 - n);
       transaction_count := inject_Z (n * n); latency := inject_Z (2 * n) |} in
  let rs := [obs 3%Z; obs 1%Z; obs 5%Z; obs 2%Z; obs 4%Z] in
  let fresh := {| records := rs; gas_price_Q := None; block_size_Q := None;
                  transaction_count_Q := None |} in
  let stale := {| records := rs;
                  gas_price_Q := Some [Some Q1; Some Q1; Some Q1; Some Q1; Some Q1];
                  block_size_Q := None;
                  transaction_count_Q := Some [] |} in
  build_report kruskal dunn_raw cliffs_delta_pkg round_to str_float fresh
  = build_report kruskal dunn_raw cliffs_delta_pkg round_to str_float stale
  /\ (forall df' report calls,
        build_report kruskal dunn_raw cliffs_delta_pkg round_to str_float fresh
        = (Some (df', report), calls) ->
        build_report kruskal dunn_raw cliffs_delta_pkg round_to str_float df'
        = (Some (df', report), calls)).
Proof.
  intros kruskal dunn_raw cliffs_delta_pkg round_to str_float obs rs fresh stale.
  apply (build_report_on_records kruskal dunn_raw cliffs_delta_pkg round_to
           str_float fresh stale).
  reflexivity.
Defined.

End ReportOnRecordsWitness.

(** * Part III: further properties of the code *)

(** ** Cliff's delta *)
Section CliffsProperties.
Import Cliffs CliffsFacts.

Lemma count_if_full {A} (p : A -> bool) l :
  count_if p l = List.length l <-> forall a, In a l -> p a = true.
Proof.
  unfold count_if. induction l as [| a l IH]; simpl.
  - split; [intros _ a [] | reflexivity].
  - pose proof (count_if_le_length p l) as Hle. unfold count_if in Hle.
    destruct (p a) eqn:E; simpl.
    + split.
      * intros H b [<- | Hb]; [exact E | apply IH; [lia | exact Hb]].
      * intros H. f_equal. apply IH. intros b Hb. apply H. right. exact Hb.
    + split; [intros H; lia |].
      intros H. rewrite (H a (or_introl eq_refl)) in E. discriminate.
Qed.

Lemma in_all_pairs A B a b : In (a, b) (all_pairs A B) <-> In a A /\ In b B.
Proof.
  unfold all_pairs. rewrite in_flat_map. split.
  - intros [x [Hx Hin]]. apply in_map_iff in Hin.
    destruct Hin as [y [[= <- <-] Hy]]. auto.
  - intros [Ha Hb]. exists a. split; [exact Ha |].
    apply in_map_iff. exists b. auto.
Qed.

(** The division of [cliffs_delta] raises exactly when one of the two
    groups is empty. *)
Theorem cliffs_delta_raises_iff_empty (lst1 lst2 : list Q) :
  cliffs_delta lst1 lst2 = None <-> lst1 = [] \/ lst2 = [].
Proof.
  unfold cliffs_delta.
  destruct (List.length lst1 * List.length lst2 =? 0)%nat eqn:E.
  - apply Nat.eqb_eq in E. split; [intros _ | reflexivity].
    destruct lst1; [left; reflexivity |].
    destruct lst2; [right; reflexivity | simpl in E; lia].
  - apply Nat.eqb_neq in E. split; [discriminate |].
    intros [-> | ->]; simpl in E; lia.
Qed.

(** Exchanging the two groups changes the sign of the statistic, and
    nothing else; it raises for the same inputs. *)
Theorem cliffs_delta_antisymmetric (lst1 lst2 : list Q) :
  match cliffs_delta lst1 lst2, cliffs_delta lst2 lst1 with
  | Some d, Some d' => d' == - d
  | None, None => True
  | _, _ => False
  end.
Proof.
  unfold cliffs_delta.
  rewrite (Nat.mul_comm (List.length lst2) (List.length lst1)).
  destruct (List.length lst1 * List.length lst2 =? 0)%nat eqn:E; [exact I |].
  rewrite !n_concordant_exceed, !n_discordant_exceed.
  assert (Hpos : ~ Qnat (List.length lst1 * List.length lst2) == 0).
  { apply Nat.eqb_neq in E. intros Hz.
    assert (H : 0 < Qnat (List.length lst1 * List.length lst2))
      by (apply (Qnat_lt 0); lia).
    rewrite Hz in H. revert H. apply Qlt_irrefl. }
  field. exact Hpos.
Qed.

(** The statistic reaches 1 exactly when every value of the first group
    exceeds every value of the second. *)
Theorem cliffs_delta_one_iff_dominates (lst1 lst2 : list Q) (d : Q) :
  cliffs_delta lst1 lst2 = Some d ->
  (d == 1 <-> forall a b, In a lst1 -> In b lst2 -> b < a).
Proof.
  unfold cliffs_delta.
  destruct (List.length lst1 * List.length lst2 =? 0)%nat eqn:E; [discriminate |].
  intros [= <-]. apply Nat.eqb_neq in E.
  pose proof (concordant_discordant_le lst1 lst2) as Hle.
  set (N := (List.length lst1 * List.length lst2)%nat) in *.
  assert (Hpos : 0 < Qnat N) by (apply (Qnat_lt 0); lia).
  assert (Hfull : n_concordant lst1 lst2 = N
                  <-> forall a b, In a lst1 -> In b lst2 -> b < a).
  { unfold n_concordant, N. rewrite <- all_pairs_length, count_if_full. split.
    - intros H a b Ha Hb. apply Qgtb_lt.
      apply (H (a, b)). apply in_all_pairs. auto.
    - intros H [a b] Hin. apply in_all_pairs in Hin. simpl.
      apply Qgtb_lt. apply H; tauto. }
  rewrite <- Hfull.
  assert (Hc : Qnat (n_concordant lst1 lst2) + Qnat (n_discordant lst1 lst2)
               <= Qnat N) by (rewrite <- Qnat_plus; apply Qnat_le; exact Hle).
  pose proof (Qnat_nonneg (n_discordant lst1 lst2)) as Hd0.
  split.
  - intros H.
    assert (H1 : (Qnat (n_concordant lst1 lst2)
                  - Qnat (n_discordant lst1 lst2)) / Qnat N * Qnat N
                 == Qnat (n_concordant lst1 lst2)
                    - Qnat (n_discordant lst1 lst2)).
    { field. intros Hz. rewrite Hz in Hpos. revert Hpos. apply Qlt_irrefl. }
    rewrite H in H1.
    assert (H2 : Qnat N <= Qnat (n_concordant lst1 lst2)) by lra.
    apply Qnat_le in H2. lia.
  - intros H. rewrite H in *.
    assert (Hz : (n_discordant lst1 lst2 = 0)%nat) by lia.
    rewrite Hz. change (Qnat 0) with 0. field.
    intros Hq. rewrite Hq in Hpos. revert Hpos. apply Qlt_irrefl.
Qed.

(** The theorem at the groups [100; 101] and [1; 2; 3]. *)
Lemma cliffs_delta_one_iff_dominates_witness :
  exists d, cliffs_delta [100; 101] [1; 2; 3] = Some d
            /\ (d == 1 <-> forall a b, In a [100; 101] -> In b [1; 2; 3] -> b < a).
Proof.
  eexists. split; [reflexivity |].
  apply (cliffs_delta_one_iff_dominates [100; 101] [1; 2; 3]). reflexivity.
Defined.

(** The statistic only reads the order of the values: a strictly
    increasing change of unit on both groups leaves it unchanged. *)
Theorem cliffs_delta_order_invariant (f : Q -> Q) (lst1 lst2 : list Q) :
  (forall a b, a < b <-> f a < f b) ->
  cliffs_delta (map f lst1) (map f lst2) = cliffs_delta lst1 lst2.
Proof.
  intros Hf.
  assert (Hc : forall A B, n_concordant (map f A) (map f B) = n_concordant A B).
  { intros A B. unfold n_concordant. rewrite !count_all_pairs, map_map.
    apply f_equal, map_ext. intros a. rewrite count_if_map. simpl.
    apply count_if_ext. intros b _.
    destruct (Qgtb a b) eqn:E.
    - apply Qgtb_lt. apply (proj1 (Hf b a)). apply Qgtb_lt. exact E.
    - destruct (Qgtb (f a) (f b)) eqn:E'; [| reflexivity].
      apply Qgtb_lt in E'. apply (proj2 (Hf b a)) in E'.
      apply Qgtb_lt in E'. congruence. }
  unfold cliffs_delta. rewrite !length_map, Hc.
  rewrite !n_discordant_exceed, <- !n_concordant_exceed, Hc.
  reflexivity.
Qed.

(** The theorem at the change from seconds to milliseconds. *)
Lemma cliffs_delta_order_invariant_witness :
  cliffs_delta (map (fun v => v * 1000) [4; 5; 6]) (map (fun v => v * 1000) [1; 5])
  = cliffs_delta [4; 5; 6] [1; 5].
Proof.
  apply (cliffs_delta_order_invariant (fun v => v * 1000)).
  intros a b. split; intros H; lra.
Defined.

End CliffsProperties.

(** ** The Quintile Binner, for any column *)
Section BinnerProperties.
Import Binner BinnerFacts BinnerMore BinnerEdges Analysis.

(** On the six edges that the quantile step returned, for a column that
    may have missing cells: whenever the cut succeeds, with or without
    ties, every record that has a value receives one of the five labels
    (never the NaN category) and a record without a value receives none;
    the sizes of the five bins add up to the number of records that have a
    value. *)
Theorem qcut_labels_partition (x : list (option Q)) (bins : list Q)
    (labels : list (option quintile)) :
  quantile_edges (dropna x) bins = true ->
  qcut_with bins x = Some labels ->
  Forall2 (fun c l => match c with
                      | Some _ => exists q, l = Some q
                      | None => l = None
                      end) x labels
  /\ list_sum (bin_sizes labels) = List.length (dropna x).
Proof.
  intros Hc Hq. destruct (qcut_with_inv bins x labels Hq) as (_ & _ & ->).
  split; [apply labels_follow_cells, Hc | apply bin_sizes_sum, Hc].
Qed.

(** The theorem at a column with ties and two missing cells. *)
Lemma qcut_labels_partition_witness :
  let x := [Some 1; Some 2; None; Some 2; Some 3; Some 4; None; Some 5; Some 6] in
  let labels := [Some Q1; Some Q1; None; Some Q1; Some Q3; Some Q4; None;
                 Some Q5; Some Q5] in
  Forall2 (fun c l => match c with
                      | Some _ => exists q, l = Some q
                      | None => l = None
                      end) x labels
  /\ list_sum (bin_sizes labels) = 7%nat.
Proof.
  intros x labels.
  apply (qcut_labels_partition x [1; 2; 24 # 10; 36 # 10; 48 # 10; 6] labels);
    reflexivity.
Defined.

(** The bins are ordered by value: a record in a lower quintile has a
    strictly smaller covariate than any record in a higher quintile, so the
    value ranges of the bins do not overlap. *)
Theorem qcut_bins_ordered (x : list Q) (labels : list (option quintile))
    (i j : nat) (v w : Q) (p q : quintile) :
  qcut x = Some labels ->
  nth_error x i = Some v -> nth_error x j = Some w ->
  nth_error labels i = Some (Some p) -> nth_error labels j = Some (Some q) ->
  (quintile_rank p < quintile_rank q)%nat ->
  v < w.
Proof.
  intros Hq Hv Hw Hp Hq' Hlt.
  destruct (qcut_inv x labels Hq) as (_ & _ & ->).
  rewrite nth_error_map, Hv in Hp. rewrite nth_error_map, Hw in Hq'.
  simpl in Hp, Hq'. injection Hp as Hp. injection Hq' as Hq'.
  destruct (label_of_id_rank _ (bin_id_in_range x v (nth_error_In _ _ Hv)))
    as [p' [Ep Rp]].
  destruct (label_of_id_rank _ (bin_id_in_range x w (nth_error_In _ _ Hw)))
    as [q' [Eq Rq]].
  rewrite Ep in Hp. rewrite Eq in Hq'.
  injection Hp as ->. injection Hq' as ->.
  destruct (Qlt_le_dec v w) as [H | H]; [exact H |].
  exfalso.
  unfold bin_edges, quantile_points in Rp, Rq. cbn [map] in Rp, Rq.
  pose proof (bin_id_mono (quantile (sort x) 0)
                [quantile (sort x) 1; quantile (sort x) 2;
                 quantile (sort x) 3; quantile (sort x) 4;
                 quantile (sort x) 5] w v H) as Hm.
  rewrite <- Rp, <- Rq in Hm. lia.
Qed.

(** The theorem at two records of a column with ties. *)
Lemma qcut_bins_ordered_witness : 2 < 3.
Proof.
  apply (qcut_bins_ordered [1; 2; 2; 3; 4; 5; 6]
           [Some Q1; Some Q1; Some Q1; Some Q3; Some Q4; Some Q5; Some Q5]
           2 3 2 3 Q1 Q3); try reflexivity.
  simpl. lia.
Defined.

(** The groups that [groupby(quintile_col)] forms from any column of the
    table (the latency values handed to the Kruskal-Wallis test are
    [groups_by_quintile], the groups of the latency column) are a partition
    of the rows whose covariate is not missing: every such row is in
    exactly one group, and a row without a covariate is in none. *)
Theorem groups_by_quintile_partition {A : Type}
    (x : list (option Q)) (bins : list Q) (labels : list (option quintile))
    (rows : list A) :
  quantile_edges (dropna x) bins = true ->
  qcut_with bins x = Some labels ->
  Permutation (concat (map (rows_of_bin labels rows) quintile_labels))
              (rows_with_value x rows).
Proof.
  intros Hc Hq. destruct (qcut_with_inv bins x labels Hq) as (_ & _ & ->).
  rewrite <- (labelled_rows x _ rows (labels_follow_cells bins x Hc)).
  apply (bins_partition_labelled (combine (map (cut_cell bins) x) rows)).
Qed.

(** The theorem at a column with ties and a missing cell, and its latency
    column. *)
Lemma groups_by_quintile_partition_witness :
  Permutation
    (concat (groups_by_quintile
               [Some Q1; Some Q1; None; Some Q1; Some Q3; Some Q4; Some Q5;
                Some Q5]
               [10; 20; 25; 30; 40; 50; 60; 70]))
    [10; 20; 30; 40; 50; 60; 70].
Proof.
  apply (groups_by_quintile_partition
           [Some 1; Some 2; None; Some 2; Some 3; Some 4; Some 5; Some 6]
           [1; 2; 24 # 10; 36 # 10; 48 # 10; 6]
           [Some Q1; Some Q1; None; Some Q1; Some Q3; Some Q4; Some Q5; Some Q5]
           [10; 20; 25; 30; 40; 50; 60; 70]); reflexivity.
Defined.

End BinnerProperties.

(** ** Quintiles and the unit of the covariate *)
Section UnitInvariance.
Import Binner BinnerFacts.

Lemma list_eq_dec_nil {A} (l : list A) : l = [] \/ l <> [].
Proof. destruct l; [left; reflexivity | right; discriminate]. Qed.

Lemma qcut_nonempty x :
  x <> [] ->
  qcut x = if unique_edges (bin_edges x)
           then Some (map (fun v => label_of_id (bin_id (bin_edges x) v)) x)
           else None.
Proof. destruct x; [congruence | reflexivity]. Qed.

Variable c : Q.
Hypothesis c_pos : 0 < c.

Let f (v : Q) : Q := v / c.

Lemma rescale_eq a b : f a == f b <-> a == b.
Proof.
  unfold f. split; intros H.
  - assert (E : forall v, v / c * c == v) by (intros v; field; lra).
    rewrite <- (E a), <- (E b), H. reflexivity.
  - rewrite H. reflexivity.
Qed.

Lemma rescale_le a b : f a <= f b <-> a <= b.
Proof.
  unfold f. split; intros H.
  - assert (E : forall v, v / c * c == v) by (intros v; field; lra).
    rewrite <- (E a), <- (E b). apply Qmult_le_compat_r; [exact H | lra].
  - unfold Qdiv. apply Qmult_le_compat_r; [exact H |].
    apply Qlt_le_weak, Qinv_lt_0_compat, c_pos.
Qed.

Lemma rescale_leb a b a' b' :
  a' == f a -> b' == f b -> Qle_bool a' b' = Qle_bool a b.
Proof.
  intros Ea Eb. rewrite Ea, Eb.
  destruct (Qle_bool a b) eqn:E.
  - apply Qle_bool_iff. apply rescale_le. apply Qle_bool_iff. exact E.
  - destruct (Qle_bool (f a) (f b)) eqn:E'; [| reflexivity].
    apply (proj1 (Qle_bool_iff _ _)) in E'. apply (proj1 (rescale_le a b)) in E'.
    apply (proj2 (Qle_bool_iff _ _)) in E'. congruence.
Qed.

Lemma rescale_eqb a b a' b' :
  a' == f a -> b' == f b -> Qeq_bool a' b' = Qeq_bool a b.
Proof.
  intros Ea Eb. rewrite Ea, Eb.
  destruct (Qeq_bool a b) eqn:E.
  - apply Qeq_bool_iff. apply rescale_eq. apply Qeq_bool_iff. exact E.
  - destruct (Qeq_bool (f a) (f b)) eqn:E'; [| reflexivity].
    apply (proj1 (Qeq_bool_iff _ _)) in E'. apply (proj1 (rescale_eq a b)) in E'.
    apply (proj2 (Qeq_bool_iff _ _)) in E'. congruence.
Qed.

Lemma rescale_insert v l : insert (f v) (map f l) = map f (insert v l).
Proof.
  induction l as [| w l IH]; simpl; [reflexivity |].
  rewrite (rescale_leb v w (f v) (f w)) by reflexivity.
  destruct (Qle_bool v w); simpl; [reflexivity |]. rewrite IH. reflexivity.
Qed.

Lemma rescale_sort x : sort (map f x) = map f (sort x).
Proof.
  induction x as [| v x IH]; simpl; [reflexivity |].
  rewrite IH. apply rescale_insert.
Qed.

Lemma rescale_nth s i : nth i (map f s) 0 == f (nth i s 0).
Proof.
  revert i. induction s as [| v s IH]; intros [| i]; simpl.
  - unfold f. field. lra.
  - unfold f. field. lra.
  - reflexivity.
  - apply IH.
Qed.

Lemma rescale_quantile s k : quantile (map f s) k == f (quantile s k).
Proof.
  unfold quantile, interpolate. rewrite length_map, !rescale_nth.
  unfold f. field. lra.
Qed.

Lemma rescale_unique bins' bins :
  Forall2 (fun b' b => b' == f b) bins' bins ->
  unique_edges bins' = unique_edges bins.
Proof.
  induction 1 as [| b' b bs' bs Hb HF IH]; simpl; [reflexivity |].
  rewrite IH. f_equal. f_equal.
  clear IH. induction HF as [| a' a bs' bs Ha HF IH]; simpl; [reflexivity |].
  rewrite IH, (rescale_eqb b a b' a' Hb Ha). reflexivity.
Qed.

Lemma rescale_searchsorted bins' bins v :
  Forall2 (fun b' b => b' == f b) bins' bins ->
  searchsorted_left bins' (f v) = searchsorted_left bins v.
Proof.
  induction 1 as [| b' b bs' bs Hb HF IH]; simpl; [reflexivity |].
  unfold Qltb. rewrite (rescale_leb v b (f v) b') by (auto; reflexivity).
  rewrite IH. reflexivity.
Qed.

Lemma rescale_edges x :
  Forall2 (fun b' b => b' == f b) (bin_edges (map f x)) (bin_edges x).
Proof.
  unfold bin_edges, quantile_points. rewrite rescale_sort. cbn [map].
  repeat constructor; apply rescale_quantile.
Qed.

(** The labels do not depend on the unit of the covariate: dividing the
    column by a positive constant (bytes to KB is the division by 1024)
    gives the same outcome of the cut, error or labels. *)
Theorem qcut_unit_invariant (x : list Q) :
  qcut (map (fun v => v / c) x) = qcut x.
Proof.
  change (fun v => v / c) with f.
  destruct (list_eq_dec_nil x) as [-> | Hne]; [reflexivity |].
  rewrite (qcut_nonempty x Hne).
  rewrite (qcut_nonempty (map f x))
    by (destruct x; [congruence | discriminate]).
  pose proof (rescale_edges x) as HE.
  rewrite (rescale_unique _ _ HE).
  destruct (unique_edges (bin_edges x)); [| reflexivity].
  f_equal. rewrite map_map. apply map_ext. intros v.
  f_equal. unfold bin_id.
  rewrite (rescale_searchsorted _ _ v HE).
  assert (Hh : hd 0 (bin_edges (map f x)) == f (hd 0 (bin_edges x))).
  { unfold bin_edges, quantile_points. rewrite rescale_sort. cbn [map hd].
    apply rescale_quantile. }
  rewrite (rescale_eqb v (hd 0 (bin_edges x)) (f v) _ (Qeq_refl _) Hh).
  reflexivity.
Qed.

End UnitInvariance.

Section UnitInvarianceWitness.
Import Binner.

(** The theorem at block sizes in bytes and in KB. *)
Lemma qcut_unit_invariant_witness :
  qcut (map (fun v => v / 1024) [2048; 1024; 5120; 3072; 4096])
  = qcut [2048; 1024; 5120; 3072; 4096].
Proof. apply (qcut_unit_invariant 1024). reflexivity. Defined.

End UnitInvarianceWitness.

(** ** The post-hoc step *)
Module PairsFacts.
Import Analysis.

Lemma length_flat_map_sum {A B} (g : A -> list B) l :
  List.length (flat_map g l) = list_sum (map (fun a => List.length (g a)) l).
Proof.
  induction l as [| a l IH]; simpl; [reflexivity |].
  rewrite length_app, IH. reflexivity.
Qed.

Lemma pairs_sum n m :
  (m <= n)%nat ->
  (2 * list_sum (map (fun i => n - S i) (seq 0 m)) + m * m + m = 2 * n * m)%nat.
Proof.
  induction m as [| m IH]; intros Hm; [simpl; lia |].
  rewrite seq_S, map_app, list_sum_app. cbn [map list_sum fold_right Nat.add].
  specialize (IH ltac:(lia)). nia.
Qed.

Lemma NoDup_flat_map {A B} (g : A -> list B) l :
  NoDup l -> (forall a, In a l -> NoDup (g a)) ->
  (forall a a' b, In a l -> In a' l -> In b (g a) -> In b (g a') -> a = a') ->
  NoDup (flat_map g l).
Proof.
  induction 1 as [| a l Hnin Hnd IH]; intros Hg Hdis; simpl; [constructor |].
  apply NoDup_app.
  - apply Hg. left. reflexivity.
  - apply IH.
    + intros a' Ha'. apply Hg. right. exact Ha'.
    + intros a1 a2 b H1 H2. apply Hdis; right; assumption.
  - intros b Hb Hb'. apply in_flat_map in Hb'. destruct Hb' as [a' [Ha' Hb']].
    assert (a = a') by (apply (Hdis a a' b); auto; [left | right]; auto).
    subst. contradiction.
Qed.

End PairsFacts.

Section PosthocProperties.
Import Binner Analysis AnalysisFacts PairsFacts.

(** The double loop over the groups visits every unordered pair exactly
    once, first index below second, and the number of rows of the pair
    table is the number of tests that the Bonferroni adjustment multiplies
    by. *)
Theorem index_pairs_each_pair_once (n : nat) :
  (forall i j, In (i, j) (index_pairs n) <-> (i < j < n)%nat)
  /\ NoDup (index_pairs n)
  /\ List.length (index_pairs n) = n_comparisons n.
Proof.
  assert (Hin : forall i j, In (i, j) (index_pairs n) <-> (i < j < n)%nat).
  { intros i j. unfold index_pairs. rewrite in_flat_map. split.
    - intros [a [Ha Hb]]. apply in_map_iff in Hb.
      destruct Hb as [b [[= <- <-] Hb]]. apply in_seq in Ha, Hb. lia.
    - intros H. exists i. split; [apply in_seq; lia |].
      apply in_map_iff. exists j. split; [reflexivity | apply in_seq; lia]. }
  split; [exact Hin |]. split.
  - unfold index_pairs. apply NoDup_flat_map.
    + apply seq_NoDup.
    + intros a _. apply Finite.Injective_map_NoDup; [| apply seq_NoDup].
      intros x y [= ->]. reflexivity.
    + intros a a' [i j] _ _ H1 H2.
      apply in_map_iff in H1. destruct H1 as [b1 [[= <- <-] _]].
      apply in_map_iff in H2. destruct H2 as [b2 [[= <- _] _]]. reflexivity.
  - unfold index_pairs, n_comparisons. rewrite length_flat_map_sum.
    assert (E : map (fun a => List.length (map (fun j => (a, j)) (seq (S a) (n - S a))))
                    (seq 0 n)
                = map (fun i => (n - S i)%nat) (seq 0 n)).
    { apply map_ext. intros a. rewrite length_map, length_seq. reflexivity. }
    rewrite E. pose proof (pairs_sum n n (Nat.le_refl n)) as H.
    apply Nat.div_unique_exact; [discriminate |].
    destruct n as [| n']; [reflexivity |].
    replace (S n' - 1)%nat with n' by lia. nia.
Qed.

Variable dunn_raw : list (list Q) -> nat -> nat -> Q.

(** With five groups that have rows, the Bonferroni value of Phase1, Phase2
    and Latency_analysis_each_function.py never exceeds 1, and it is below
    0.05 exactly when the unadjusted p-value is below 0.005; so every pair
    those scripts flag is also flagged by the unadjusted test of the
    Statistical_analysis scripts. *)
Theorem bonferroni_threshold (groups : list (list Q)) (i j : nat) :
  List.length (observed_groups groups) = 5%nat ->
  phase1_posthoc dunn_raw groups i j <= 1
  /\ (significant (phase1_posthoc dunn_raw groups i j) = true
      <-> dunn_raw groups i j < 5 # 1000)
  /\ (significant (phase1_posthoc dunn_raw groups i j) = true ->
      significant (statistical_posthoc dunn_raw groups i j) = true).
Proof.
  intros Hn.
  unfold phase1_posthoc, statistical_posthoc, posthoc_dunn.
  rewrite Hn, n_comparisons_5. change (Qnat 10) with 10.
  rewrite !significant_lt.
  split; [apply Q.le_min_l |].
  split; [| intros H; apply Q.min_lt_iff in H; lra].
  rewrite Q.min_lt_iff. split; intros H; [| right]; lra.
Qed.

End PosthocProperties.

Section PosthocPropertiesWitness.
Import Binner Analysis.

(** The theorem at five groups, with 1/100 for the unadjusted p-value. *)
Lemma bonferroni_threshold_witness :
  let dunn_raw := fun (_ : list (list Q)) (_ _ : nat) => 1 # 100 in
  let groups := [[1]; [2]; [3]; [4]; [5]] in
  phase1_posthoc dunn_raw groups 0 1 <= 1
  /\ (significant (phase1_posthoc dunn_raw groups 0 1) = true
      <-> dunn_raw groups 0%nat 1%nat < 5 # 1000)
  /\ (significant (phase1_posthoc dunn_raw groups 0 1) = true ->
      significant (statistical_posthoc dunn_raw groups 0 1) = true).
Proof.
  intros dunn_raw groups.
  apply (bonferroni_threshold dunn_raw groups 0 1). reflexivity.
Defined.

End PosthocPropertiesWitness.

(** ** The reports of Phase1 and Phase2 *)
Section ReportProperties.
Import Binner BinnerFacts Analysis AnalysisFacts.

Variable kruskal : list (list Q) -> option (Q * Q).
Variable dunn_raw : list (list Q) -> nat -> nat -> Q.
Variable cliffs_delta_pkg : list Q -> list Q -> option (Q * string).
Variable round_to : Q -> nat -> Q.
Variable str_float : Q -> string.

Lemma phase2_pair_rows_success groups rows calls :
  phase2_pair_rows dunn_raw cliffs_delta_pkg round_to groups
  = (Some rows, calls) ->
  map p2_comparison rows = index_pairs 5 /\ calls = index_pairs 5.
Proof.
  unfold phase2_pair_rows. change (List.length quintile_labels) with 5%nat.
  intros E. apply for_each_success in E. destruct E as [HF ->]. split.
  - apply (Forall2_map_back _ _ _ _ HF).
    intros a b Hab. apply (phase2_row_success _ _ _ _ _ _ Hab).
  - apply (flat_map_singleton _ _ _ HF).
    intros a b Hab. apply (phase2_row_success _ _ _ _ _ _ Hab).
Qed.

Lemma phase1_pair_rows_success groups rows calls :
  phase1_pair_rows dunn_raw cliffs_delta_pkg round_to str_float groups
  = (Some rows, calls) ->
  map p1_comparison rows = index_pairs 5 /\ calls = index_pairs 5.
Proof.
  unfold phase1_pair_rows. change (List.length quintile_labels) with 5%nat.
  intros E. apply for_each_success in E. destruct E as [HF ->]. split.
  - apply (Forall2_map_back _ _ _ _ HF).
    intros a b Hab. apply (phase1_row_success _ _ _ _ _ _ _ Hab).
  - apply (flat_map_singleton _ _ _ HF).
    intros a b Hab. apply (phase1_row_success _ _ _ _ _ _ _ Hab).
Qed.

(** Phase2's [analyze_factor] returns a post-hoc table exactly when the
    Kruskal-Wallis p-value is below 0.05.  Without significance it returns
    [None] for the table and the effect-size function is never called; with
    it the table has one row for each of the ten pairs, in loop order, and
    the effect-size function was called once for each. *)
Theorem phase2_analyze_gate (groups : list (list Q))
    (res : Q * Q * option (list Phase2Row)) (calls : list (nat * nat)) :
  phase2_analyze kruskal dunn_raw cliffs_delta_pkg round_to groups
  = (Some res, calls) ->
  exists H p,
    kruskal groups = Some (H, p) /\ fst res = (H, p)
    /\ (significant p = false -> snd res = None /\ calls = [])
    /\ (significant p = true ->
        exists rows, snd res = Some rows
                     /\ map p2_comparison rows = index_pairs 5
                     /\ calls = index_pairs 5).
Proof.
  unfold phase2_analyze.
  destruct (kruskal groups) as [[H p] |]; [| discriminate].
  intros E. exists H, p. split; [reflexivity |].
  destruct (significant p).
  - apply bind_success in E. destruct E as (rows & t1 & t2 & E1 & E2 & ->).
    unfold ret in E2. injection E2 as <- <-.
    destruct (phase2_pair_rows_success _ _ _ E1) as [Hc ->].
    split; [reflexivity |]. split; [discriminate |].
    intros _. exists rows. rewrite app_nil_r. auto.
  - unfold ret in E. injection E as <- <-.
    split; [reflexivity |]. split; [auto | discriminate].
Qed.

Lemma kruskal_test_factors df factors df' results :
  kruskal_test_for_factors kruskal round_to df factors = Some (df', results) ->
  map kw_factor results = factors.
Proof.
  revert df df' results.
  induction factors as [| f factors IH]; intros df df' results; simpl.
  - intros [= _ <-]. reflexivity.
  - destruct (assign_quintiles f df) as [df1 |]; [| discriminate].
    destruct (factor_groups f df1); [| discriminate].
    destruct (kruskal _) as [[h p] |]; [| discriminate].
    destruct (kruskal_test_for_factors kruskal round_to df1 factors)
      as [[df2 rs] |] eqn:E2; [| discriminate].
    intros [= _ <-]. simpl. f_equal. apply (IH _ _ _ E2).
Qed.

Lemma produce_posthoc_success df f df' rows calls :
  produce_posthoc_cliffs_table dunn_raw cliffs_delta_pkg round_to str_float
    df f = (Some (df', rows), calls) ->
  map p1_comparison rows = index_pairs 5 /\ calls = index_pairs 5.
Proof.
  unfold produce_posthoc_cliffs_table. intros H.
  apply bind_success in H. destruct H as (df1 & t1 & t2 & H1 & H & ->).
  apply bind_success in H. destruct H as (groups & t3 & t4 & H2 & H & ->).
  apply bind_success in H. destruct H as (rs & t5 & t6 & H3 & H & ->).
  unfold ret in H. injection H as _ <- <-.
  unfold raise_or in H1, H2.
  apply (f_equal snd) in H1. apply (f_equal snd) in H2. cbn [snd] in H1, H2.
  subst t1 t3. destruct (phase1_pair_rows_success _ _ _ H3) as [Hc ->].
  rewrite app_nil_r. auto.
Qed.

(** The pages of the factor loop: one for each factor whose summary row
    has a rounded p-value below 0.05. *)
Lemma posthoc_pages_success kw_df factors df df' pages calls :
  posthoc_pages dunn_raw cliffs_delta_pkg round_to str_float kw_df df factors
  = (Some (df', pages), calls) ->
  map fst pages
  = filter (fun f =>
              match find (fun r => factor_eqb (kw_factor r) f) kw_df with
              | Some r => significant (kw_p_value r)
              | None => false
              end) factors
  /\ Forall (fun pg => map p1_comparison (snd pg) = index_pairs 5) pages
  /\ calls = concat (map (fun _ => index_pairs 5) pages).
Proof.
  revert df df' pages calls.
  induction factors as [| f factors IH]; intros df df' pages calls H;
    cbn [posthoc_pages] in H.
  - unfold ret in H. injection H as _ <- <-. repeat split. constructor.
  - apply bind_success in H. destruct H as (row & t1 & t2 & Hrow & H & ->).
    unfold raise_or in Hrow. injection Hrow as Hrow <-.
    cbn [filter]. rewrite Hrow.
    destruct (significant (kw_p_value row)).
    + apply bind_success in H. destruct H as ([df1 rows] & t3 & t4 & H1 & H & ->).
      apply bind_success in H. destruct H as ([df2 ps] & t5 & t6 & H2 & H & ->).
      unfold ret in H. cbn [fst snd] in *. injection H as _ <- <-.
      destruct (IH _ _ _ _ H2) as (Hf & Hp & ->).
      destruct (produce_posthoc_success _ _ _ _ _ H1) as [Hc ->].
      cbn [map fst snd concat]. rewrite Hf, app_nil_r.
      repeat split. constructor; [exact Hc | exact Hp].
    + destruct (IH _ _ _ _ H) as (Hf & Hp & ->). repeat split; assumption.
Qed.

(** On success the report of Phase1 has one Kruskal-Wallis row for each of
    the three factors, in order, and one post-hoc page for each factor
    whose rounded p-value in that table is below 0.05, in the same order;
    every page lists the ten pairs, and the effect-size function was called
    ten times for each page and never for a factor without a page. *)
Theorem build_report_structure (df df' : DataFrame) (kw_df : list KWRow)
    (pages : list (factor * list Phase1Row)) (calls : list (nat * nat)) :
  build_report kruskal dunn_raw cliffs_delta_pkg round_to str_float df
  = (Some (df', (kw_df, pages)), calls) ->
  map kw_factor kw_df = all_factors
  /\ map fst pages
     = map kw_factor (filter (fun r => significant (kw_p_value r)) kw_df)
  /\ Forall (fun pg => map p1_comparison (snd pg) = index_pairs 5) pages
  /\ calls = concat (map (fun _ => index_pairs 5) pages).
Proof.
  unfold build_report. intros H.
  apply bind_success in H. destruct H as ([df1 kw] & t1 & t2 & H1 & H & ->).
  apply bind_success in H. destruct H as ([df2 ps] & t3 & t4 & H2 & H & ->).
  unfold ret in H. cbn [fst snd] in *. injection H as _ <- <- <-.
  unfold raise_or in H1.
  assert (Ht : t1 = []) by (apply (f_equal snd) in H1; symmetry; exact H1).
  apply (f_equal fst) in H1. cbn [fst] in H1. subst t1.
  pose proof (kruskal_test_factors _ _ _ _ H1) as Hk.
  destruct (posthoc_pages_success _ _ _ _ _ _ H2) as (Hf & Hp & ->).
  split; [exact Hk |]. split; [| split; [exact Hp |]].
  - rewrite Hf. unfold all_factors in *.
    destruct kw as [| r1 [| r2 [| r3 [| r4 kw]]]]; try discriminate.
    cbn [map] in Hk. injection Hk as E1 E2 E3.
    cbn [filter find]. rewrite E1, E2, E3. cbn [factor_eqb].
    destruct (significant (kw_p_value r1)), (significant (kw_p_value r2)),
      (significant (kw_p_value r3)); cbn [map]; rewrite ?E1, ?E2, ?E3;
      reflexivity.
  - cbn [app]. rewrite app_nil_r. reflexivity.
Qed.

(** A factor whose column is constant cannot be cut into quintiles: the
    report of Phase1 then raises, and it does so before any effect size
    is computed. *)
Theorem build_report_constant_column (df : DataFrame) (f : factor) :
  (forall a b, In a (factor_column f df) -> In b (factor_column f df) ->
               a == b) ->
  build_report kruskal dunn_raw cliffs_delta_pkg round_to str_float df
  = (None, []).
Proof.
  intros Hconst.
  assert (Hnone : forall factors d,
    In f factors -> records d = records df ->
    kruskal_test_for_factors kruskal round_to d factors = None).
  { induction factors as [| g factors IH]; intros d Hin Hr; [destruct Hin |].
    cbn [kruskal_test_for_factors].
    destruct (assign_quintiles g d) as [d1 |] eqn:E1; [| reflexivity].
    destruct (factor_groups g d1); [| reflexivity].
    destruct (kruskal _) as [[h p] |]; [| reflexivity].
    destruct Hin as [-> | Hin].
    - exfalso. unfold assign_quintiles in E1.
      rewrite qcut_constant in E1; [discriminate |].
      unfold factor_column in *. rewrite Hr. exact Hconst.
    - rewrite (IH d1 Hin); [reflexivity |].
      rewrite (assign_quintiles_records _ _ _ E1). exact Hr. }
  unfold build_report.
  rewrite (Hnone all_factors df); [reflexivity | | reflexivity].
  destruct f; simpl; auto.
Qed.

End ReportProperties.

Section ReportPropertiesWitnesses.
Import Binner Analysis.

(** The theorem at five groups with a significant omnibus result. *)
Lemma phase2_analyze_gate_witness :
  let kruskal := fun _ : list (list Q) => Some (16, 1 # 100) in
  let dunn_raw := fun (_ : list (list Q)) (_ _ : nat) => 1 # 1000 in
  let cliffs_delta_pkg :=
    fun a b => option_map (fun d => (d, EmptyString)) (Cliffs.cliffs_delta a b) in
  let round_to := fun (v : Q) (_ : nat) => v in
  let groups := [[1]; [2]; [3]; [4]; [5]] in
  exists res calls,
    phase2_analyze kruskal dunn_raw cliffs_delta_pkg round_to groups
    = (Some res, calls)
    /\ exists H p,
         kruskal groups = Some (H, p) /\ fst res = (H, p)
         /\ (significant p = false -> snd res = None /\ calls = [])
         /\ (significant p = true ->
             exists rows, snd res = Some rows
                          /\ map p2_comparison rows = index_pairs 5
                          /\ calls = index_pairs 5).
Proof.
  intros kruskal dunn_raw cliffs_delta_pkg round_to groups.
  eexists. eexists. split; [vm_compute; reflexivity |].
  apply (phase2_analyze_gate kruskal dunn_raw cliffs_delta_pkg round_to groups).
  vm_compute. reflexivity.
Defined.

(** The theorems at a table of five records, and at the same table with a
    constant gas price. *)
Lemma build_report_structure_witness :
  let kruskal := fun _ : list (list Q) => Some (16, 1 # 100) in
  let dunn_raw := fun (_ : list (list Q)) (_ _ : nat) => 1 # 1000 in
  let cliffs_delta_pkg :=
    fun a b => option_map (fun d => (d, EmptyString)) (Cliffs.cliffs_delta a b) in
  let round_to := fun (v : Q) (_ : nat) => v in
  let str_float := fun _ : Q => EmptyString in
  let obs (n : Z) :=
    {| gas_price := inject_Z n; block_size := inject_Z (10 - n);
       transaction_count := inject_Z (n * n); latency := inject_Z (2 * n) |} in
  let df := {| records := [obs 3%Z; obs 1%Z; obs 5%Z; obs 2%Z; obs 4%Z];
               gas_price_Q := None; block_size_Q := None;
               transaction_count_Q := None |} in
  exists df' kw_df pages calls,
    build_report kruskal dunn_raw cliffs_delta_pkg round_to str_float df
    = (Some (df', (kw_df, pages)), calls)
    /\ map kw_factor kw_df = all_factors
    /\ map fst pages
       = map kw_factor (filter (fun r => significant (kw_p_value r)) kw_df)
    /\ Forall (fun pg => map p1_comparison (snd pg) = index_pairs 5) pages
    /\ calls = concat (map (fun _ => index_pairs 5) pages).
Proof.
  intros kruskal dunn_raw cliffs_delta_pkg round_to str_float obs df.
  do 4 eexists. split; [vm_compute; reflexivity |].
  eapply (build_report_structure kruskal dunn_raw cliffs_delta_pkg round_to
            str_float df).
  vm_compute. reflexivity.
Defined.

Lemma build_report_constant_column_witness :
  let kruskal := fun _ : list (list Q) => Some (16, 1 # 100) in
  let dunn_raw := fun (_ : list (list Q)) (_ _ : nat) => 1 # 1000 in
  let cliffs_delta_pkg :=
    fun a b => option_map (fun d => (d, EmptyString)) (Cliffs.cliffs_delta a b) in
  let round_to := fun (v : Q) (_ : nat) => v in
  let str_float := fun _ : Q => EmptyString in
  let obs (n : Z) :=
    {| gas_price := 20; block_size := inject_Z (10 - n);
       transaction_count := inject_Z (n * n); latency := inject_Z (2 * n) |} in
  let df := {| records := [obs 3%Z; obs 1%Z; obs 5%Z; obs 2%Z; obs 4%Z];
               gas_price_Q := None; block_size_Q := None;
               transaction_count_Q := None |} in
  build_report kruskal dunn_raw cliffs_delta_pkg round_to str_float df
  = (None, []).
Proof.
  intros kruskal dunn_raw cliffs_delta_pkg round_to str_float obs df.
  apply (build_report_constant_column kruskal dunn_raw cliffs_delta_pkg
           round_to str_float df GasPrice).
  assert (HF : Forall (fun v => v == 20) (factor_column GasPrice df))
    by (repeat constructor).
  rewrite Forall_forall in HF. intros a b Ha Hb.
  rewrite (HF a Ha), (HF b Hb). reflexivity.
Defined.

End ReportPropertiesWitnesses.

(** ** The Loader, hash-based mode *)
Module HashJoinFacts.
Import Loader LoaderFacts.

Lemma in_merge_inner left right m :
  In m (merge_inner left right)
  <-> exists g l,
        In g left /\ In l right
        /\ hash_eqb (g_transaction_hash g) (hl_transaction_hash l) = true
        /\ m = {| hm_gas := g; hm_latency := hl_latency l |}.
Proof.
  unfold merge_inner. rewrite in_flat_map. split.
  - intros [g [Hg Hm]]. apply in_map_iff in Hm. destruct Hm as [l [<- Hl]].
    apply filter_In in Hl. destruct Hl as [Hl He]. exists g, l. auto.
  - intros (g & l & Hg & Hl & He & ->). exists g. split; [exact Hg |].
    apply in_map_iff. exists l. split; [reflexivity |].
    apply filter_In. auto.
Qed.



Lemma dropna_hash_flat_map (frames : list (list HashLatencyRow)) :
  flat_map dropna_hash frames = dropna_hash (concat frames).
Proof.
  unfold dropna_hash. induction frames as [| fr frames IH]; [reflexivity |].
  cbn [flat_map concat]. rewrite filter_app, IH. reflexivity.
Qed.






(** On files that are all readable, [Phase1Files.process_service_data] is
    [Phase1.process_service_data] on the tables read. *)
Lemma phase1_tables_as_read data_files block_files :
  Forall (fun file => match file with
                      | ReadRaises => False
                      | NoFile => True
                      | Csv f => hc_has_hash_column f = true
                      end) data_files ->
  Forall (fun file => file <> ReadRaises) block_files ->
  Phase1Files.process_service_data data_files block_files
  = Some (Phase1.process_service_data
            (map (option_map hc_table) (Phase1Files.tables_read data_files))
            (Phase1Files.tables_read block_files)).
Proof.
  intros Hd Hb.
  assert (El : Phase1Files.latency_data_list data_files
               = Some (Phase1.latency_data_list
                         (map (option_map hc_table)
                              (Phase1Files.tables_read data_files)))).
  { induction Hd as [| [| | f] files Hf Hd IH];
      cbn [Phase1Files.latency_data_list Phase1Files.tables_read map].
    - reflexivity.
    - exact IH.
    - contradiction.
    - fold (Phase1Files.tables_read files). rewrite Hf, IH.
      unfold Phase1.latency_data_list. cbn [flat_map option_map].
      destruct (hf_has_latency_column (hc_table f)); reflexivity. }
  assert (Eg : Phase1Files.gas_data_list block_files
               = Some (map (map with_block_size_KB)
                           (flat_map (fun f => match f with
                                               | Some rows => [rows]
                                               | None => []
                                               end)
                                     (Phase1Files.tables_read block_files)))).
  { induction Hb as [| [| | rows] files Hf Hb IH];
      cbn [Phase1Files.gas_data_list Phase1Files.tables_read map flat_map].
    - reflexivity.
    - exact IH.
    - contradiction.
    - fold (Phase1Files.tables_read files). rewrite IH. reflexivity. }
  unfold Phase1Files.process_service_data, Phase1.process_service_data.
  rewrite El, Eg.
  assert (Ec : concat (map (map with_block_size_KB)
                           (flat_map (fun f => match f with
                                               | Some rows => [rows]
                                               | None => []
                                               end)
                                     (Phase1Files.tables_read block_files)))
               = all_gas_data with_block_size_KB
                   (Phase1Files.tables_read block_files)).
  { clear. unfold all_gas_data.
    induction (Phase1Files.tables_read block_files) as [| [rows |] fs IH];
      cbn [flat_map map concat app]; [reflexivity | | exact IH].
    rewrite IH. reflexivity. }
  rewrite Ec.
  destruct (concat (Phase1.latency_data_list _)); [reflexivity |].
  destruct (all_gas_data _ _); reflexivity.
Qed.

Lemma high_latency_has_hash data_files frames l :
  HighGasUsed.latency_data_list data_files true = Some frames ->
  In l (concat frames) -> hl_transaction_hash l <> None.
Proof.
  revert frames.
  induction data_files as [| [f |] files IH]; intros frames H Hin.
  - injection H as <-. destruct Hin.
  - cbn [HighGasUsed.latency_data_list] in H.
    destruct (hf_has_latency_column f); [| discriminate].
    destruct (HighGasUsed.latency_data_list files true) as [frs |];
      [| discriminate].
    injection H as <-. cbn [concat] in Hin. apply in_app_or in Hin.
    destruct Hin as [Hin | Hin]; [| apply (IH frs eq_refl Hin)].
    apply filter_In in Hin. destruct Hin as [_ Hs].
    destruct (hl_transaction_hash l); [discriminate | discriminate].
  - apply (IH frames H Hin).
Qed.

End HashJoinFacts.

Section HashJoinProperties.
Import Loader LoaderFacts HashJoinFacts.

(** The inner join of the hash-based loaders: a merged record exists
    exactly for a block row and a latency row with the same hash; and when
    no hash occurs twice in the latency table, the number of merged records
    is the number of block rows that have a partner, the rows without a
    partner on either side leaving no record. *)
Theorem merge_inner_law (left : list GasRow) (right : list HashLatencyRow) :
  (forall m,
      In m (merge_inner left right)
      <-> exists g l,
            In g left /\ In l right
            /\ hash_eqb (g_transaction_hash g) (hl_transaction_hash l) = true
            /\ m = {| hm_gas := g; hm_latency := hl_latency l |})
  /\ (NoDup (map hl_transaction_hash right) ->
      List.length (merge_inner left right)
      = count_if (fun g => existsb (hash_eqb (g_transaction_hash g))
                                   (map hl_transaction_hash right)) left).
Proof.
  split; [intros m; apply in_merge_inner | apply merge_inner_unique_keys].
Qed.

(** The theorem at two block rows and two latency rows, one hash shared. *)
Lemma merge_inner_law_witness :
  let g h := {| g_gas_price := Some 20; g_block_size := Some 2;
                g_transaction_count := Some 7;
                g_transaction_hash := Some h |} in
  let l h := {| hl_latency := Some 3; hl_transaction_hash := Some h |} in
  List.length (merge_inner [g "0xa"%string; g "0xb"%string]
                           [l "0xb"%string; l "0xc"%string]) = 1%nat.
Proof.
  intros g l.
  apply (proj2 (merge_inner_law [g "0xa"%string; g "0xb"%string]
                                [l "0xb"%string; l "0xc"%string])).
  repeat constructor; simpl; intuition discriminate.
Defined.

(** Statistical_analysis_HighGasUsed.py drops the latency rows without a
    hash before the merge, so no merged record is the pairing of two
    missing hashes: every record it returns has a transaction hash. *)
Theorem high_gas_records_have_hash
    (data_files : list (option HashLatencyFile))
    (block_files : list (option (list BlockRow))) (merged : list HashMerged) :
  HighGasUsed.process_service_data data_files block_files true = Some merged ->
  forall m, In m merged -> g_transaction_hash (hm_gas m) <> None.
Proof.
  unfold HighGasUsed.process_service_data.
  destruct (HighGasUsed.latency_data_list data_files true) as [frames |] eqn:E;
    [| discriminate].
  intros H m Hin.
  destruct (concat frames) as [| l0 ls] eqn:Ec;
    [injection H as <-; destruct Hin |].
  destruct (all_gas_data with_block_size_bytes block_files) as [| g0 gs] eqn:Eg;
    [injection H as <-; destruct Hin |].
  assert (Hm : merged = merge_inner (g0 :: gs) (l0 :: ls)) by congruence.
  rewrite Hm in Hin. apply in_merge_inner in Hin.
  destruct Hin as (g & l & _ & Hl & He & ->). cbn [hm_gas].
  apply hash_eqb_eq in He. rewrite He.
  apply (high_latency_has_hash data_files frames l E). rewrite Ec. exact Hl.
Qed.

(** The theorem at a latency file with a row without hash and a block file
    with a row without hash. *)
Lemma high_gas_records_have_hash_witness :
  let block h := {| b_gas_price := Some 20; b_block_size_bytes := Some 2048;
                    b_transaction_count := Some 7; b_transaction_hash := h |} in
  let lat h := {| hl_latency := Some 3; hl_transaction_hash := h |} in
  let data_files :=
    [Some {| hf_has_latency_column := true;
             hf_rows := [lat None; lat (Some "0xa"%string)] |}] in
  let block_files := [Some [block None; block (Some "0xa"%string)]] in
  let m := {| hm_gas := with_block_size_bytes (block (Some "0xa"%string));
              hm_latency := Some 3 |} in
  HighGasUsed.process_service_data data_files block_files true = Some [m]
  /\ g_transaction_hash (hm_gas m) <> None.
Proof.
  intros block lat data_files block_files m.
  split; [reflexivity |].
  apply (high_gas_records_have_hash data_files block_files [m]).
  - reflexivity.
  - left. reflexivity.
Defined.



End HashJoinProperties.

(** ** The Loader, index-based mode *)
Module IndexModeFacts.
Import Loader LoaderFacts GroupByFacts.

Lemma sort_by_sorted_id {A} (leb : A -> A -> bool) l :
  StronglySorted (fun x y => leb x y = true) l -> sort_by leb l = l.
Proof.
  induction 1 as [| a l Hs IH Ha]; [reflexivity |].
  cbn [sort_by fold_right]. fold (sort_by leb l). rewrite IH.
  destruct l as [| b l]; [reflexivity |]. cbn [insert_by].
  rewrite Forall_forall in Ha. rewrite (Ha b (or_introl eq_refl)). reflexivity.
Qed.

Lemma dedup_NoDup_id l : NoDup l -> dedup l = l.
Proof.
  induction 1 as [| k l Hnin Hnd IH]; [reflexivity |]. cbn [dedup].
  destruct (existsb (key_eqb k) l) eqn:E.
  - apply existsb_key_In in E. contradiction.
  - rewrite IH. reflexivity.
Qed.

Lemma keys_of_map_some (g : LatencyRow -> option key) out keys :
  map g out = map Some keys ->
  flat_map (fun r => match g r with Some k => [k] | None => [] end) out = keys.
Proof.
  revert keys. induction out as [| o out IH]; intros [| k keys] H;
    simpl in *; try discriminate; [reflexivity |].
  injection H as Ho H. rewrite Ho. simpl. f_equal. apply IH, H.
Qed.

(** In a table with one row per key, the group of a key is that row. *)
Lemma filter_single_key (mk : key -> LatencyRow) check keys k :
  NoDup keys -> In k keys ->
  (forall k', In k' keys -> check (mk k') = key_eqb k k') ->
  filter check (map mk keys) = [mk k].
Proof.
  induction 1 as [| a keys Hnin Hnd IH]; intros Hin Hc; [destruct Hin |].
  cbn [map filter]. rewrite (Hc a (or_introl eq_refl)).
  destruct (key_eqb k a) eqn:E.
  - apply key_eqb_eq in E. subst a. f_equal.
    clear IH Hin. induction keys as [| b keys IH]; [reflexivity |].
    cbn [map filter]. rewrite (Hc b (or_intror (or_introl eq_refl))).
    destruct (key_eqb k b) eqn:Eb.
    + apply key_eqb_eq in Eb. subst b. exfalso. apply Hnin. left. reflexivity.
    + apply IH.
      * intros H. apply Hnin. right. exact H.
      * inversion Hnd; assumption.
      * intros k' [<- | Hk']; apply Hc; [left | right; right]; auto.
  - destruct Hin as [-> | Hin].
    + rewrite (proj2 (key_eqb_eq k k) eq_refl) in E. discriminate.
    + apply IH; [exact Hin |]. intros k' Hk'. apply Hc. right. exact Hk'.
Qed.

Lemma first_non_null_single {A} (c : option A) : first_non_null [c] = c.
Proof. destruct c; reflexivity. Qed.

(** The rows that survive the alignment by position and the [dropna]. *)
Lemma in_dropna_concat has_user gas lat m :
  In m (dropna_axis1 has_user (concat_axis1 gas lat)) ->
  gas_complete (im_gas m) = true
  /\ latency_complete has_user (im_latency m) = true
  /\ exists i, nth_error gas i = Some (im_gas m)
               /\ nth_error lat i = Some (im_latency m).
Proof.
  revert lat. induction gas as [| g gas IH]; intros lat Hin.
  - cbn [concat_axis1] in Hin. rewrite dropna_axis1_right_only in Hin.
    destruct Hin.
  - destruct lat as [| l lat].
    + cbn [concat_axis1] in Hin.
      rewrite (dropna_axis1_left_only has_user (g :: gas)) in Hin.
      destruct Hin.
    + cbn [concat_axis1 dropna_axis1 flat_map] in Hin.
      apply in_app_or in Hin. destruct Hin as [Hin | Hin].
      * destruct (gas_complete g && latency_complete has_user l) eqn:E;
          [| destruct Hin].
        destruct Hin as [<- | []]. apply andb_true_iff in E.
        cbn [im_gas im_latency]. split; [tauto |]. split; [tauto |].
        exists 0%nat. split; reflexivity.
      * destruct (IH lat Hin) as (Hg & Hl & i & Hi & Hj).
        split; [exact Hg |]. split; [exact Hl |]. exists (S i). auto.
Qed.

Lemma length_dropna_concat has_user gas lat :
  (List.length (dropna_axis1 has_user (concat_axis1 gas lat))
   <= Nat.min (List.length gas) (List.length lat))%nat.
Proof.
  revert lat. induction gas as [| g gas IH]; intros lat.
  - cbn [concat_axis1]. rewrite dropna_axis1_right_only. simpl. lia.
  - destruct lat as [| l lat].
    + cbn [concat_axis1].
      rewrite (dropna_axis1_left_only has_user (g :: gas)). simpl. lia.
    + cbn [concat_axis1 dropna_axis1 flat_map]. rewrite length_app.
      fold (dropna_axis1 has_user (concat_axis1 gas lat)).
      specialize (IH lat).
      destruct (gas_complete g && latency_complete has_user l); simpl; lia.
Qed.

End IndexModeFacts.

Section IndexModeProperties.
Import Loader LoaderFacts GroupByFacts IndexModeFacts.

(** Grouping is idempotent: a latency table that has been reduced to one
    record per key is left unchanged by a second
    [groupby(keys).first().reset_index()]. *)
Theorem groupby_first_idempotent (by_user : bool) (rs : list LatencyRow) :
  groupby_first by_user (groupby_first by_user rs) = groupby_first by_user rs.
Proof.
  set (out := groupby_first by_user rs).
  assert (Hkeys : group_keys by_user out = group_keys by_user rs).
  { unfold group_keys at 1. unfold out.
    rewrite (keys_of_map_some _ _ _ (groupby_first_keys by_user rs)).
    rewrite (dedup_NoDup_id _ (group_keys_NoDup by_user rs)).
    apply sort_by_sorted_id, group_keys_sorted. }
  unfold groupby_first at 1. rewrite Hkeys.
  unfold out, groupby_first. apply map_ext_in. intros k Hk.
  f_equal.
  rewrite (filter_single_key _ _ _ k (group_keys_NoDup by_user rs) Hk).
  - cbn [map Latency]. apply first_non_null_single.
  - intros k' Hk'. unfold has_key.
    apply group_keys_In in Hk'. destruct Hk' as [r [_ Hr]].
    rewrite (group_key_of_key by_user r k' _ Hr). reflexivity.
Qed.

(** For any loaded tables, with or without missing cells: every record
    returned in index-based mode pairs a block row and a latency row that
    stood at the same position, both without a missing cell; the result is
    never longer than the shorter table; and when one of the tables is
    empty the result is empty and "No data available" is printed. *)
Theorem index_merge_positional
    (data_files : list (option LatencyFile))
    (block_files : list (option (list BlockRow))) :
  let gas := all_gas_data with_block_size_KB block_files in
  let lat := EachFunction.all_latency_data data_files in
  let result := EachFunction.process_service_data data_files block_files in
  (forall m, In m (fst result) ->
     gas_complete (im_gas m) = true
     /\ latency_complete (lt_has_UserIndex lat) (im_latency m) = true
     /\ exists i, nth_error gas i = Some (im_gas m)
                  /\ nth_error (lt_rows lat) i = Some (im_latency m))
  /\ (List.length (fst result)
      <= Nat.min (List.length gas) (List.length (lt_rows lat)))%nat
  /\ (gas = [] \/ lt_rows lat = [] ->
      fst result = []
      /\ snd result
         = (EachFunction.loading_messages data_files block_files
            ++ [NoDataAvailable])%list).
Proof.
  intros gas lat result.
  unfold result, EachFunction.process_service_data,
    EachFunction.merge_index_based.
  fold gas. fold lat. cbn [fst snd].
  destruct (lt_rows lat) as [| l0 ls] eqn:El.
  - split; [intros m [] |]. split; [simpl; lia |]. intros _. auto.
  - destruct gas as [| g0 gs] eqn:Eg.
    + split; [intros m [] |]. split; [simpl; lia |]. intros _. auto.
    + cbn [fst snd]. split; [| split].
      * intros m Hin. apply (in_dropna_concat _ _ _ _ Hin).
      * apply length_dropna_concat.
      * intros [H | H]; discriminate.
Qed.

(** The theorem where the block file is missing: the latency rows are
    loaded, nothing is merged, and both messages are printed. *)
Lemma index_merge_positional_witness :
  let lat (it : Z) :=
    {| Iteration := Some it; UserIndex := Some 0%Z;
       Latency := Some (inject_Z it) |} in
  let data_files :=
    [Some {| has_Iteration := true; has_UserIndex := true;
             has_latency_column := true; rows := [lat 1%Z; lat 2%Z] |}] in
  let result := EachFunction.process_service_data data_files [None] in
  fst result = [] /\ snd result = [FileNotFound; NoDataAvailable].
Proof.
  intros lat data_files.
  apply (proj2 (proj2 (index_merge_positional data_files [None]))).
  left. reflexivity.
Defined.

End IndexModeProperties.
